(** * MCF: a multi-core FIFO (single-producer / single-consumer ring buffer)

    Shallow embedding of [MCF.h] / [MCF.c] and proofs about the ring-buffer
    protocol: configuration ([MCF_init_TX], [MCF_init_RX], [MCF_init_RXTX]),
    the five typed producers ([MCF_send_u16] ... [MCF_send_f32]) and the
    consumer loop ([MCF_receive]).

    The C code works on three kinds of objects reached through pointers:
    the instance structure [MCF_t], the two shared [uint16_t] cursors and
    the message array.  They are modelled as three typed regions of one
    store, so that several instances may refer to the same cursors and the
    same array, as the transmitting and the receiving core do. *)

From Stdlib Require Import QArith.
From stdpp Require Import gmap list.

Local Open Scope Z_scope.

(** ** Machine integers *)

Definition UINT16_MAX : Z := 65535.

(** Result of storing an [int] into a [uint16_t] object. *)
Definition wrap_u16 (z : Z) : Z := z mod 65536.

Definition is_u16 (z : Z) : Prop := 0 <= z <= UINT16_MAX.

(** A C [float] is kept as its IEEE-754 binary32 encoding; the code only
    copies such values, it never computes with them. *)
Definition float32 : Type := Z.

(** Value of a finite, normal binary32 encoding as a rational. *)
Definition float32_to_Q (bits : float32) : option Q :=
  let sign := Z.testbit bits 31 in
  let e := Z.land (Z.shiftr bits 23) 255 in
  let f := Z.land bits 8388607 in
  if (0 <? e) && (e <? 255) then
    let mant := Qmake (8388608 + f) 1 in
    let scale := Qpower (Qmake 2 1) (e - 127 - 23) in
    Some (Qred (if sign then Qopp (Qmult mant scale) else Qmult mant scale))
  else None.

(** The encoding of [3.5f]. *)
Definition f32_3_5 : float32 := 0x40600000.

(** ** Pointers *)

Definition ptr : Type := N.
Definition NULL : ptr := 0%N.

(** ** Messages ([MCF_Message_t])

    The anonymous union holds one value at a time; the constructor records
    which member was stored last. *)

Inductive MCF_payload : Type :=
  | f32 (v : float32)
  | u16 (v : Z)
  | u32 (v : Z)
  | i16 (v : Z)
  | i32 (v : Z).

Record MCF_Message_t : Type := mkMsg { msgID : Z; payload : MCF_payload }.

(** [slot.<member> = value] and [slot.msgID = id]. *)
Definition set_payload (p : MCF_payload) (m : MCF_Message_t) : MCF_Message_t :=
  mkMsg (msgID m) p.
Definition set_msgID (id : Z) (m : MCF_Message_t) : MCF_Message_t :=
  mkMsg id (payload m).

(** ** Results of running a call *)

Inductive outcome (A : Type) : Type :=
  | Done (a : A)   (* the call returned *)
  | Fault          (* failed [assert], or access through an invalid pointer or index *)
  | OutOfFuel.     (* the loop was cut off before it ended *)
Arguments Done {A} a.
Arguments Fault {A}.
Arguments OutOfFuel {A}.

Section Store.

(** State of the consumer's application code, which the parser callback
    updates.  The callback receives a pointer to one slot: it reads the
    slot, may write it, and does not touch the cursors or the instance. *)
Variable U : Type.

Definition parser_fn : Type := MCF_Message_t -> U -> MCF_Message_t * U.

(** ** Instances ([MCF_t]) *)

Record MCF_t : Type := mkMCF {
  msgBuf : ptr;
  head : ptr;
  tail : ptr;
  msgBufSize : Z;
  msgParser : option parser_fn   (* [None] is the null function pointer *)
}.

Definition set_msgBuf (v : ptr) (inst : MCF_t) : MCF_t :=
  mkMCF v (head inst) (tail inst) (msgBufSize inst) (msgParser inst).
Definition set_head (v : ptr) (inst : MCF_t) : MCF_t :=
  mkMCF (msgBuf inst) v (tail inst) (msgBufSize inst) (msgParser inst).
Definition set_tail (v : ptr) (inst : MCF_t) : MCF_t :=
  mkMCF (msgBuf inst) (head inst) v (msgBufSize inst) (msgParser inst).
Definition set_msgBufSize (v : Z) (inst : MCF_t) : MCF_t :=
  mkMCF (msgBuf inst) (head inst) (tail inst) v (msgParser inst).
Definition set_msgParser (v : option parser_fn) (inst : MCF_t) : MCF_t :=
  mkMCF (msgBuf inst) (head inst) (tail inst) (msgBufSize inst) v.

(** ** The store *)

Record World : Type := mkWorld {
  instances : gmap N MCF_t;                 (* [MCF_t] objects *)
  cursors : gmap N Z;                       (* [uint16_t] objects *)
  buffers : gmap N (list MCF_Message_t);    (* [MCF_Message_t] arrays *)
  user : U                                  (* state of the parser's side *)
}.

Definition set_instances (v : gmap N MCF_t) (w : World) : World :=
  mkWorld v (cursors w) (buffers w) (user w).
Definition set_cursors (v : gmap N Z) (w : World) : World :=
  mkWorld (instances w) v (buffers w) (user w).
Definition set_buffers (v : gmap N (list MCF_Message_t)) (w : World) : World :=
  mkWorld (instances w) (cursors w) v (user w).
Definition set_user (v : U) (w : World) : World :=
  mkWorld (instances w) (cursors w) (buffers w) v.

(** ** Calls: functions from store to outcome *)

Definition M (A : Type) : Type := World -> outcome (A * World).

Definition ret {A : Type} (a : A) : M A := fun w => Done (a, w).

Definition bind {A B : Type} (m : M A) (k : A -> M B) : M B :=
  fun w =>
    match m w with
    | Done (a, w') => k a w'
    | Fault => Fault
    | OutOfFuel => OutOfFuel
    end.

Definition fault {A : Type} : M A := fun _ => Fault.
Definition out_of_fuel {A : Type} : M A := fun _ => OutOfFuel.

Definition assert (b : bool) : M unit := if b then ret tt else fault.

End Store.

Arguments mkMCF {U}.
Arguments msgBuf {U}.
Arguments head {U}.
Arguments tail {U}.
Arguments msgBufSize {U}.
Arguments msgParser {U}.
Arguments set_msgBuf {U}.
Arguments set_head {U}.
Arguments set_tail {U}.
Arguments set_msgBufSize {U}.
Arguments set_msgParser {U}.
Arguments mkWorld {U}.
Arguments instances {U}.
Arguments cursors {U}.
Arguments buffers {U}.
Arguments user {U}.
Arguments set_instances {U}.
Arguments set_cursors {U}.
Arguments set_buffers {U}.
Arguments set_user {U}.
Arguments ret {U A}.
Arguments bind {U A B}.
Arguments fault {U A}.
Arguments out_of_fuel {U A}.
Arguments assert {U}.

Notation "'let*' x := e 'in' k" := (bind e (fun x => k))
  (at level 10, x name, e at level 100, k at level 200, only parsing).

Definition is_null (p : ptr) : bool := N.eqb p NULL.

(** ** Memory accesses *)

Section Operations.

Context {U : Type}.

(** [*p] for [uint16_t *p]. *)
Definition load_u16 (p : ptr) : M U Z := fun w =>
  if is_null p then Fault
  else match cursors w !! p with
       | Some v => Done (v, w)
       | None => Fault
       end.

(** [*p = v] for [uint16_t *p]. *)
Definition store_u16 (p : ptr) (v : Z) : M U unit := fun w =>
  if is_null p then Fault
  else match cursors w !! p with
       | Some _ => Done (tt, set_cursors (<[p := v]> (cursors w)) w)
       | None => Fault
       end.

(** Reading the fields of [*Instance]. *)
Definition load_MCF (p : ptr) : M U (MCF_t U) := fun w =>
  if is_null p then Fault
  else match instances w !! p with
       | Some inst => Done (inst, w)
       | None => Fault
       end.

(** [Instance->field = v], with [f] the field update. *)
Definition modify_MCF (p : ptr) (f : MCF_t U -> MCF_t U) : M U unit := fun w =>
  if is_null p then Fault
  else match instances w !! p with
       | Some inst => Done (tt, set_instances (<[p := f inst]> (instances w)) w)
       | None => Fault
       end.

(** The slot [b[i]], when [b] is an array of the store and [i] is inside it. *)
Definition slot_of (w : World U) (b : ptr) (i : Z) : option MCF_Message_t :=
  if is_null b then None
  else match buffers w !! b with
       | Some buf => if 0 <=? i then buf !! Z.to_nat i else None
       | None => None
       end.

Definition put_slot (w : World U) (b : ptr) (i : Z) (m : MCF_Message_t) : World U :=
  match buffers w !! b with
  | Some buf => set_buffers (<[b := <[Z.to_nat i := m]> buf]> (buffers w)) w
  | None => w
  end.

(** [b[i].field = v], with [f] the field update. *)
Definition modify_msg (b : ptr) (i : Z) (f : MCF_Message_t -> MCF_Message_t) : M U unit :=
  fun w =>
    match slot_of w b i with
    | Some m => Done (tt, put_slot w b i (f m))
    | None => Fault
    end.

(** [parser(&b[i])]: the callback works on the slot in place and on its own state. *)
Definition call_parser (parser : option (parser_fn U)) (b : ptr) (i : Z) : M U unit :=
  fun w =>
    match parser with
    | None => Fault
    | Some f =>
        match slot_of w b i with
        | Some m =>
            let '(m', u') := f m (user w) in
            Done (tt, set_user u' (put_slot w b i m'))
        | None => Fault
        end
    end.

(** ** Configuration *)

Definition MCF_init_TX (Instance head_ tail_ MsgBuf : ptr) (BufSize : Z) : M U unit :=
  let* _ := assert (negb (is_null Instance) && negb (is_null head_) && negb (is_null tail_)
                    && negb (is_null MsgBuf) && (0 <? BufSize)) in
  let* _ := modify_MCF Instance (set_head head_) in
  let* _ := modify_MCF Instance (set_tail tail_) in
  let* _ := modify_MCF Instance (set_msgBuf MsgBuf) in
  let* _ := modify_MCF Instance (set_msgBufSize BufSize) in
  let* inst := load_MCF Instance in
  store_u16 (head inst) 0.

Definition MCF_init_RX (Instance head_ tail_ MsgBuf : ptr) (BufSize : Z)
    (msgParser_ : option (parser_fn U)) : M U unit :=
  let* _ := assert (negb (is_null Instance) && negb (is_null head_) && negb (is_null tail_)
                    && negb (is_null MsgBuf) && (0 <? BufSize)
                    && bool_decide (is_Some msgParser_)) in
  let* _ := modify_MCF Instance (set_head head_) in
  let* _ := modify_MCF Instance (set_tail tail_) in
  let* _ := modify_MCF Instance (set_msgBuf MsgBuf) in
  let* _ := modify_MCF Instance (set_msgBufSize BufSize) in
  let* _ := modify_MCF Instance (set_msgParser msgParser_) in
  let* inst := load_MCF Instance in
  store_u16 (tail inst) 0.

Definition MCF_init_RXTX (Instance head_ tail_ MsgBuf : ptr) (BufSize : Z)
    (msgParser_ : option (parser_fn U)) : M U unit :=
  let* _ := assert (negb (is_null Instance) && negb (is_null head_) && negb (is_null tail_)
                    && negb (is_null MsgBuf) && (0 <? BufSize)
                    && bool_decide (is_Some msgParser_)) in
  let* _ := modify_MCF Instance (set_head head_) in
  let* _ := modify_MCF Instance (set_tail tail_) in
  let* _ := modify_MCF Instance (set_msgBuf MsgBuf) in
  let* _ := modify_MCF Instance (set_msgBufSize BufSize) in
  let* _ := modify_MCF Instance (set_msgParser msgParser_) in
  let* inst := load_MCF Instance in
  let* _ := store_u16 (tail inst) 0 in
  let* inst := load_MCF Instance in
  store_u16 (head inst) 0.

(** ** Producers

    [head >= Instance->msgBufSize - 1] is evaluated in [int] after the
    integer promotions, hence without wrap-around ([int] is taken to be
    wider than 16 bits; for a capacity of at least 1 a 16-bit [int] gives
    the same result); [head++] is a [uint16_t] increment.  [msgID] and
    [value] are the argument values as the callee sees them, already
    converted to the parameter types. *)

Definition MCF_send_u16 (Instance : ptr) (msgID value : Z) : M U unit :=
  let* _ := assert (negb (is_null Instance)) in
  let* inst := load_MCF Instance in
  let* head0 := load_u16 (head inst) in
  let head1 := if head0 >=? msgBufSize inst - 1 then 0 else wrap_u16 (head0 + 1) in
  let* _ := modify_msg (msgBuf inst) head1 (set_payload (u16 value)) in
  let* _ := modify_msg (msgBuf inst) head1 (set_msgID msgID) in
  store_u16 (head inst) head1.

Definition MCF_send_i16 (Instance : ptr) (msgID value : Z) : M U unit :=
  let* _ := assert (negb (is_null Instance)) in
  let* inst := load_MCF Instance in
  let* head0 := load_u16 (head inst) in
  let head1 := if head0 >=? msgBufSize inst - 1 then 0 else wrap_u16 (head0 + 1) in
  let* _ := modify_msg (msgBuf inst) head1 (set_payload (i16 value)) in
  let* _ := modify_msg (msgBuf inst) head1 (set_msgID msgID) in
  store_u16 (head inst) head1.

Definition MCF_send_u32 (Instance : ptr) (msgID value : Z) : M U unit :=
  let* _ := assert (negb (is_null Instance)) in
  let* inst := load_MCF Instance in
  let* head0 := load_u16 (head inst) in
  let head1 := if head0 >=? msgBufSize inst - 1 then 0 else wrap_u16 (head0 + 1) in
  let* _ := modify_msg (msgBuf inst) head1 (set_payload (u32 value)) in
  let* _ := modify_msg (msgBuf inst) head1 (set_msgID msgID) in
  store_u16 (head inst) head1.

Definition MCF_send_i32 (Instance : ptr) (msgID value : Z) : M U unit :=
  let* _ := assert (negb (is_null Instance)) in
  let* inst := load_MCF Instance in
  let* head0 := load_u16 (head inst) in
  let head1 := if head0 >=? msgBufSize inst - 1 then 0 else wrap_u16 (head0 + 1) in
  let* _ := modify_msg (msgBuf inst) head1 (set_payload (i32 value)) in
  let* _ := modify_msg (msgBuf inst) head1 (set_msgID msgID) in
  store_u16 (head inst) head1.

Definition MCF_send_f32 (Instance : ptr) (msgID : Z) (value : float32) : M U unit :=
  let* _ := assert (negb (is_null Instance)) in
  let* inst := load_MCF Instance in
  let* head0 := load_u16 (head inst) in
  let head1 := if head0 >=? msgBufSize inst - 1 then 0 else wrap_u16 (head0 + 1) in
  let* _ := modify_msg (msgBuf inst) head1 (set_payload (f32 value)) in
  let* _ := modify_msg (msgBuf inst) head1 (set_msgID msgID) in
  store_u16 (head inst) head1.

(** ** Consumer

    The C loop has no bound of its own, so the model counts iterations:
    [fuel] is the number of times the loop condition may be evaluated. *)

Fixpoint MCF_receive_loop (fuel : nat) (Instance : ptr) : M U unit :=
  match fuel with
  | O => out_of_fuel
  | S fuel' =>
      let* inst := load_MCF Instance in
      let* h := load_u16 (head inst) in
      let* t := load_u16 (tail inst) in
      if negb (h =? t) then
        let* t0 := load_u16 (tail inst) in
        let* _ := store_u16 (tail inst) (wrap_u16 (t0 + 1)) in
        let* t1 := load_u16 (tail inst) in
        let* _ := (if t1 >=? msgBufSize inst then store_u16 (tail inst) 0 else ret tt) in
        let* t2 := load_u16 (tail inst) in
        let* _ := call_parser (msgParser inst) (msgBuf inst) t2 in
        MCF_receive_loop fuel' Instance
      else ret tt
  end.

Definition MCF_receive (fuel : nat) (Instance : ptr) : M U unit :=
  let* _ := assert (negb (is_null Instance)) in
  MCF_receive_loop fuel Instance.

End Operations.

(** ** Clients of the channel *)

Section Clients.

Context {U : Type}.

(** Sending a message value: the payload member selects the producer. *)
Definition MCF_send (Instance : ptr) (m : MCF_Message_t) : M U unit :=
  match payload m with
  | f32 v => MCF_send_f32 Instance (msgID m) v
  | u16 v => MCF_send_u16 Instance (msgID m) v
  | u32 v => MCF_send_u32 Instance (msgID m) v
  | i16 v => MCF_send_i16 Instance (msgID m) v
  | i32 v => MCF_send_i32 Instance (msgID m) v
  end.

(** The five producers differ only in the union member they store. *)
Definition send_with (pl : MCF_payload) (Instance : ptr) (msgID : Z) : M U unit :=
  let* _ := assert (negb (is_null Instance)) in
  let* inst := load_MCF Instance in
  let* head0 := load_u16 (head inst) in
  let head1 := if head0 >=? msgBufSize inst - 1 then 0 else wrap_u16 (head0 + 1) in
  let* _ := modify_msg (msgBuf inst) head1 (set_payload pl) in
  let* _ := modify_msg (msgBuf inst) head1 (set_msgID msgID) in
  store_u16 (head inst) head1.

(** A straight-line client: a sequence of sends and drains on one instance. *)
Inductive call : Type :=
  | Send (m : MCF_Message_t)
  | Receive.

Definition exec_call (fuel : nat) (Instance : ptr) (c : call) : M U unit :=
  match c with
  | Send m => MCF_send Instance m
  | Receive => MCF_receive fuel Instance
  end.

Fixpoint exec_calls (fuel : nat) (Instance : ptr) (cs : list call) : M U unit :=
  match cs with
  | [] => ret tt
  | c :: cs' => let* _ := exec_call fuel Instance c in exec_calls fuel Instance cs'
  end.

Definition sends (msgs : list MCF_Message_t) : list call := map Send msgs.

(** Effect on the consumer's state of invoking the parser once per message,
    first to last. *)
Definition deliver (f : parser_fn U) (msgs : list MCF_Message_t) (u : U) : U :=
  fold_left (fun u m => snd (f m u)) msgs u.

(** Reference behaviour: an unbounded FIFO queue [q] of pending messages;
    a send appends, a drain hands the whole queue to the parser in order. *)
Fixpoint fifo (f : parser_fn U) (cs : list call) (q : list MCF_Message_t) (u : U)
    : list MCF_Message_t * U :=
  match cs with
  | [] => (q, u)
  | Send m :: cs' => fifo f cs' (q ++ [m]) u
  | Receive :: cs' => fifo f cs' [] (deliver f q u)
  end.

(** No more than [cap] messages are ever pending, starting from [n]. *)
Fixpoint within_capacity (cap : Z) (cs : list call) (n : Z) : bool :=
  match cs with
  | [] => true
  | Send _ :: cs' => (n + 1 <=? cap) && within_capacity cap cs' (n + 1)
  | Receive :: cs' => within_capacity cap cs' 0
  end.

(** Index of the [k]-th slot after [t] in a ring of [size] slots. *)
Definition ring_index (size t : Z) (k : nat) : Z := (t + 1 + Z.of_nat k) mod size.

(** [msgs] are the contents of the [length msgs] slots that follow [t]. *)
Definition slots_after (size t : Z) (buf msgs : list MCF_Message_t) : Prop :=
  forall k, (k < length msgs)%nat -> buf !! Z.to_nat (ring_index size t k) = msgs !! k.

(** The slots that follow [t], read in ring order. *)
Fixpoint read_ring (size : Z) (buf : list MCF_Message_t) (t : Z) (d : nat)
    : list MCF_Message_t :=
  match d with
  | O => []
  | S d' =>
      let t' := (t + 1) mod size in
      match buf !! Z.to_nat t' with
      | Some m => m :: read_ring size buf t' d'
      | None => []
      end
  end.

(** The messages between the cursors: the forward circular distance from
    [t] to [h] many slots after [t]. *)
Definition pending (size : Z) (buf : list MCF_Message_t) (h t : Z) : list MCF_Message_t :=
  read_ring size buf t (Z.to_nat ((h - t) mod size)).

(** Next value of the head cursor, as a producer computes it. *)
Definition advance (size h : Z) : Z :=
  if h >=? size - 1 then 0 else wrap_u16 (h + 1).

(** ** Well-formed channels

    [channel w p inst buf h t]: in store [w], [p] points to the instance
    [inst], whose cursors are two distinct objects holding [h] and [t] and
    whose array is [buf], with room for [msgBufSize] messages. *)
Record channel (w : World U) (p : ptr) (inst : MCF_t U)
    (buf : list MCF_Message_t) (h t : Z) : Prop := mk_channel {
  ch_ptr : p <> NULL;
  ch_inst : instances w !! p = Some inst;
  ch_head_ptr : head inst <> NULL;
  ch_tail_ptr : tail inst <> NULL;
  ch_buf_ptr : msgBuf inst <> NULL;
  ch_sep : head inst <> tail inst;
  ch_head : cursors w !! head inst = Some h;
  ch_tail : cursors w !! tail inst = Some t;
  ch_buf : buffers w !! msgBuf inst = Some buf;
  ch_size : 0 < msgBufSize inst <= UINT16_MAX;
  ch_len : msgBufSize inst <= Z.of_nat (length buf)
}.

(** Storage handed to a configuration call: an instance object, two
    distinct cursor objects and an array of at least [size] messages. *)
Record storage (w : World U) (p hp tp bp : ptr) (size : Z)
    (buf : list MCF_Message_t) : Prop := mk_storage {
  st_ptr : p <> NULL;
  st_inst : is_Some (instances w !! p);
  st_head_ptr : hp <> NULL;
  st_tail_ptr : tp <> NULL;
  st_buf_ptr : bp <> NULL;
  st_sep : hp <> tp;
  st_head : is_Some (cursors w !! hp);
  st_tail : is_Some (cursors w !! tp);
  st_buf : buffers w !! bp = Some buf;
  st_size : 0 < size <= UINT16_MAX;
  st_len : size <= Z.of_nat (length buf)
}.

(** The store after a producer call: slot [i] rewritten, head published. *)
Definition after_send (inst : MCF_t U) (buf : list MCF_Message_t) (i : Z)
    (m : MCF_Message_t) (w : World U) : World U :=
  set_cursors (<[head inst := i]> (cursors w))
    (set_buffers (<[msgBuf inst := <[Z.to_nat i := m]> buf]> (buffers w)) w).

(** Next value of the tail cursor, as the consumer computes it. *)
Definition advance_tail (size t : Z) : Z :=
  let t1 := wrap_u16 (t + 1) in if t1 >=? size then 0 else t1.

(** The store after one iteration of the drain loop: tail moved to [i],
    the parser run on slot [i], holding [m]. *)
Definition after_parse (inst : MCF_t U) (buf : list MCF_Message_t) (i : Z)
    (f : parser_fn U) (m : MCF_Message_t) (w : World U) : World U :=
  set_user (snd (f m (user w)))
    (set_buffers (<[msgBuf inst := <[Z.to_nat i := fst (f m (user w))]> buf]> (buffers w))
       (set_cursors (<[tail inst := i]> (cursors w)) w)).

(** The store after a drain: tail has caught up with [h], the array is
    [buf'] and the consumer's state is [u']. *)
Definition after_drain (inst : MCF_t U) (buf' : list MCF_Message_t) (h : Z) (u' : U)
    (w : World U) : World U :=
  set_user u'
    (set_buffers (<[msgBuf inst := buf']> (buffers w))
       (set_cursors (<[tail inst := h]> (cursors w)) w)).

(** The store after a configuration call: instance [p] rewritten to
    [inst'], cursors [curs]. *)
Definition configured (p : ptr) (inst' : MCF_t U) (curs : gmap N Z) (w : World U)
    : World U :=
  set_cursors curs (set_instances (<[p := inst']> (instances w)) w).

(** *** Shapes of the statements proved below *)

(** [call] returns, having published index [i] with message [m] in slot [i]. *)
Definition publishes (call : M U unit) (w : World U) (inst : MCF_t U) (i : Z)
    (m : MCF_Message_t) : Prop :=
  exists w', call w = Done (tt, w') /\
    cursors w' !! head inst = Some i /\
    slot_of w' (msgBuf inst) i = Some m.

(** [call] returns, and in the store it leaves only the cursor [head inst]
    and slot [i] of the array [msgBuf inst] may differ from [w]; in
    particular the tail cursor still holds [t] and the instance at [p] is
    still [inst]. *)
Definition writes_only (call : M U unit) (w : World U) (p : ptr) (inst : MCF_t U)
    (t i : Z) : Prop :=
  exists w', call w = Done (tt, w') /\
    cursors w' !! tail inst = Some t /\
    instances w' !! p = Some inst /\
    (forall j, j <> i -> slot_of w' (msgBuf inst) j = slot_of w (msgBuf inst) j) /\
    instances w' = instances w /\
    user w' = user w /\
    (forall q, q <> head inst -> cursors w' !! q = cursors w !! q) /\
    (forall b, b <> msgBuf inst -> buffers w' !! b = buffers w !! b).

(** Both cursors of [inst] hold indices into its array. *)
Definition cursors_in_range (w : World U) (inst : MCF_t U) : Prop :=
  exists h t, cursors w !! head inst = Some h /\ cursors w !! tail inst = Some t /\
    0 <= h < msgBufSize inst /\ 0 <= t < msgBufSize inst.

(** [call] returns and leaves the cursors of the instance at [p] in range. *)
Definition establishes_range (call : M U unit) (w : World U) (p : ptr) : Prop :=
  exists w' inst', call w = Done (tt, w') /\
    instances w' !! p = Some inst' /\ cursors_in_range w' inst'.

(** Configure for send and receive, send one [float] message with
    identifier 7 and value 3.5, drain. *)
Definition round_trip_f32 (fuel : nat) (p hp tp bp : ptr) (size : Z) (f : parser_fn U)
    : M U unit :=
  let* _ := MCF_init_RXTX p hp tp bp size (Some f) in
  let* _ := MCF_send_f32 p 7 f32_3_5 in
  MCF_receive fuel p.

(** The round trip returns after exactly one parser invocation, on the
    message (7, 3.5), with head equal to tail. *)
Definition single_round_trip (w0 : World U) (p hp tp bp : ptr) (size : Z)
    (f : parser_fn U) : Prop :=
  forall fuel, (Z.to_nat size < fuel)%nat ->
    exists w', round_trip_f32 fuel p hp tp bp size f w0 = Done (tt, w') /\
      user w' = deliver f [mkMsg 7 (f32 f32_3_5)] (user w0) /\
      exists c, cursors w' !! hp = Some c /\ cursors w' !! tp = Some c.

(** Configure for send and receive, then send [msgs] with no drain. *)
Definition burst (p hp tp bp : ptr) (size : Z) (f : parser_fn U)
    (msgs : list MCF_Message_t) : M U unit :=
  let* _ := MCF_init_RXTX p hp tp bp size (Some f) in
  exec_calls 0 p (sends msgs).

(** The first message of [msgs] is no longer in the slot a burst wrote it to. *)
Definition earliest_overwritten (w : World U) (bp : ptr) (size : Z)
    (msgs : list MCF_Message_t) : Prop :=
  exists m1, msgs !! 0%nat = Some m1 /\ slot_of w bp (1 mod size) <> Some m1.

(** A burst of more than [size - 1] messages overwrites the earliest one. *)
Definition overflow_overwrites_earliest (w0 : World U) (p hp tp bp : ptr) (size : Z)
    (f : parser_fn U) (msgs : list MCF_Message_t) : Prop :=
  size - 1 < Z.of_nat (length msgs) ->
  exists w', burst p hp tp bp size f msgs w0 = Done (tt, w') /\
    earliest_overwritten w' bp size msgs.

(** *** Further shapes of statements *)

(** [p] points to an instance object, to a cursor object, of the store. *)
Definition valid_MCF (w : World U) (p : ptr) : Prop :=
  p <> NULL /\ is_Some (instances w !! p).


(** A client with two instances on the same storage: sends go through
    [pT], drains through [pR]. *)
Definition exec_pair_call (fuel : nat) (pT pR : ptr) (c : call) : M U unit :=
  match c with
  | Send m => MCF_send pT m
  | Receive => MCF_receive fuel pR
  end.

Fixpoint exec_pair (fuel : nat) (pT pR : ptr) (cs : list call) : M U unit :=
  match cs with
  | [] => ret tt
  | c :: cs' => let* _ := exec_pair_call fuel pT pR c in exec_pair fuel pT pR cs'
  end.

(** Bring-up of a transmitter and a receiver on shared storage.  In the
    first the transmitter is configured and sends [msgs] before the
    receiver is configured; in the second the receiver is configured
    first. *)
Definition session_tx_first (fuel : nat) (pT pR hp tp bp : ptr) (size : Z)
    (f : parser_fn U) (msgs : list MCF_Message_t) (cs : list call) : M U unit :=
  let* _ := MCF_init_TX pT hp tp bp size in
  let* _ := exec_calls 0 pT (sends msgs) in
  let* _ := MCF_init_RX pR hp tp bp size (Some f) in
  exec_pair fuel pT pR cs.

Definition session_rx_first (fuel : nat) (pT pR hp tp bp : ptr) (size : Z)
    (f : parser_fn U) (cs : list call) : M U unit :=
  let* _ := MCF_init_RX pR hp tp bp size (Some f) in
  let* _ := MCF_init_TX pT hp tp bp size in
  exec_pair fuel pT pR cs.

End Clients.

(** ** A concrete store, for examples

    The consumer's state is the list of messages its parser has seen. *)

Definition logger : parser_fn (list MCF_Message_t) := fun m u => (m, u ++ [m]).

Definition blank : MCF_Message_t := mkMsg 0 (u16 0).

(** Unconfigured storage: an instance at address 1, cursors at 2 and 3
    holding [h] and [t], an array of [n] slots at 4. *)
Definition raw_store (n : nat) (h t : Z) : World (list MCF_Message_t) :=
  mkWorld {[ 1%N := mkMCF 0%N 0%N 0%N 0 None ]} {[ 2%N := h; 3%N := t ]}
    {[ 4%N := replicate n blank ]} [].

Definition example_inst (size : Z) : MCF_t (list MCF_Message_t) :=
  mkMCF 4%N 2%N 3%N size (Some logger).

(** The same storage, configured with capacity [size]. *)
Definition example_store (size : Z) (buf : list MCF_Message_t) (h t : Z)
    : World (list MCF_Message_t) :=
  mkWorld {[ 1%N := example_inst size ]} {[ 2%N := h; 3%N := t ]} {[ 4%N := buf ]} [].

(** The configured storage with an instance that has no parser, as a
    transmit-only configuration leaves a fresh instance. *)
Definition tx_only_store (size : Z) (buf : list MCF_Message_t) (h t : Z)
    : World (list MCF_Message_t) :=
  mkWorld {[ 1%N := mkMCF 4%N 2%N 3%N size None ]} {[ 2%N := h; 3%N := t ]}
    {[ 4%N := buf ]} [].


(** Unconfigured storage for a transmitter and a receiver: a second
    instance at address 5. *)
Definition raw_pair_store (n : nat) (h t : Z) : World (list MCF_Message_t) :=
  mkWorld {[ 1%N := mkMCF 0%N 0%N 0%N 0 None; 5%N := mkMCF 0%N 0%N 0%N 0 None ]}
    {[ 2%N := h; 3%N := t ]} {[ 4%N := replicate n blank ]} [].



(** * Proofs *)

Section Proofs.

Context {U : Type}.
Implicit Types (w : World U) (inst : MCF_t U) (p : ptr) (buf msgs : list MCF_Message_t).

Lemma is_null_false p : p <> NULL -> is_null p = false.
Proof. unfold is_null. intros H. by apply N.eqb_neq. Qed.

Lemma bind_Done {A B} (m : M U A) (k : A -> M U B) w a w' :
  m w = Done (a, w') -> bind m k w = k a w'.
Proof. unfold bind. by intros ->. Qed.

Lemma bind_ret {A B} (a : A) (k : A -> M U B) w : bind (ret a) k w = k a w.
Proof. reflexivity. Qed.

Lemma bind_assert_true {B} (k : unit -> M U B) w : bind (assert true) k w = k tt w.
Proof. reflexivity. Qed.

Lemma bind_assert_nonnull {B} p (k : unit -> M U B) w :
  p <> NULL -> bind (assert (negb (is_null p))) k w = k tt w.
Proof. intros Hp. by rewrite (is_null_false _ Hp). Qed.

Lemma load_u16_Done w p v :
  p <> NULL -> cursors w !! p = Some v -> load_u16 p w = Done (v, w).
Proof. intros Hp Hv. unfold load_u16. by rewrite (is_null_false _ Hp), Hv. Qed.

Lemma store_u16_Done w p v0 v :
  p <> NULL -> cursors w !! p = Some v0 ->
  store_u16 p v w = Done (tt, set_cursors (<[p := v]> (cursors w)) w).
Proof. intros Hp Hv. unfold store_u16. by rewrite (is_null_false _ Hp), Hv. Qed.

Lemma load_MCF_Done w p inst :
  p <> NULL -> instances w !! p = Some inst -> load_MCF p w = Done (inst, w).
Proof. intros Hp Hv. unfold load_MCF. by rewrite (is_null_false _ Hp), Hv. Qed.

Lemma modify_MCF_Done w p inst f :
  p <> NULL -> instances w !! p = Some inst ->
  modify_MCF p f w = Done (tt, set_instances (<[p := f inst]> (instances w)) w).
Proof. intros Hp Hv. unfold modify_MCF. by rewrite (is_null_false _ Hp), Hv. Qed.

Lemma slot_of_Some w b buf i m :
  b <> NULL -> buffers w !! b = Some buf -> 0 <= i -> buf !! Z.to_nat i = Some m ->
  slot_of w b i = Some m.
Proof.
  intros Hb Hbuf Hi Hm. unfold slot_of.
  rewrite (is_null_false _ Hb), Hbuf.
  by destruct (Z.leb_spec 0 i); [|lia].
Qed.

Lemma modify_msg_Done w b buf i m f :
  b <> NULL -> buffers w !! b = Some buf -> 0 <= i -> buf !! Z.to_nat i = Some m ->
  modify_msg b i f w
  = Done (tt, set_buffers (<[b := <[Z.to_nat i := f m]> buf]> (buffers w)) w).
Proof.
  intros Hb Hbuf Hi Hm. unfold modify_msg, put_slot.
  by rewrite (slot_of_Some _ _ _ _ _ Hb Hbuf Hi Hm), Hbuf.
Qed.

Lemma call_parser_Done w f b buf i m :
  b <> NULL -> buffers w !! b = Some buf -> 0 <= i -> buf !! Z.to_nat i = Some m ->
  call_parser (Some f) b i w
  = Done (tt, set_user (snd (f m (user w)))
                (set_buffers (<[b := <[Z.to_nat i := fst (f m (user w))]> buf]> (buffers w)) w)).
Proof.
  intros Hb Hbuf Hi Hm. unfold call_parser, put_slot.
  rewrite (slot_of_Some _ _ _ _ _ Hb Hbuf Hi Hm), Hbuf.
  by destruct (f m (user w)).
Qed.

(** *** Index arithmetic *)

Lemma advance_mod size h :
  0 <= h < size -> size <= UINT16_MAX -> advance size h = (h + 1) mod size.
Proof.
  unfold advance, wrap_u16, UINT16_MAX. intros Hh Hs.
  destruct (Z.geb_spec h (size - 1)).
  - replace (h + 1) with size by lia. by rewrite Z.mod_same by lia.
  - rewrite !Z.mod_small; lia.
Qed.

Lemma advance_range size h : 0 < size -> is_u16 h -> 0 <= advance size h < size.
Proof.
  unfold advance, wrap_u16, is_u16, UINT16_MAX. intros Hs Hh.
  destruct (Z.geb_spec h (size - 1)); [lia|].
  destruct (Z.eq_dec h 65535) as [->|]; [change ((65535 + 1) mod 65536) with 0; lia|].
  rewrite Z.mod_small; lia.
Qed.

(** *** Producers *)

Lemma MCF_send_is_send_with p m : MCF_send (U:=U) p m = send_with (payload m) p (msgID m).
Proof. unfold MCF_send. by destruct (payload m). Qed.

Lemma send_with_Done w p inst buf h t pl id :
  channel w p inst buf h t -> is_u16 h ->
  send_with pl p id w
  = Done (tt, after_send inst buf (advance (msgBufSize inst) h) (mkMsg id pl) w).
Proof.
  intros [] Hh.
  pose proof (advance_range (msgBufSize inst) h ltac:(lia) Hh) as Hi.
  fold (advance (msgBufSize inst) h).
  set (i := advance (msgBufSize inst) h) in *.
  destruct (lookup_lt_is_Some_2 buf (Z.to_nat i) ltac:(lia)) as [m0 Hm0].
  unfold send_with.
  rewrite (bind_assert_nonnull _ _ _ ch_ptr0).
  rewrite (bind_Done _ _ _ _ _ (load_MCF_Done _ _ _ ch_ptr0 ch_inst0)).
  rewrite (bind_Done _ _ _ _ _ (load_u16_Done _ _ _ ch_head_ptr0 ch_head0)).
  fold (advance (msgBufSize inst) h). fold i.
  rewrite (bind_Done _ _ _ _ _
             (modify_msg_Done _ _ _ _ _ _ ch_buf_ptr0 ch_buf0 (proj1 Hi) Hm0)).
  erewrite bind_Done; cycle 1.
  { eapply modify_msg_Done; [done| simpl; apply lookup_insert_eq | lia |].
    apply list_lookup_insert_eq. lia. }
  erewrite store_u16_Done; [|done|simpl; done].
  unfold after_send, set_cursors, set_buffers, set_msgID, set_payload. simpl.
  by rewrite insert_insert_eq, list_insert_insert_eq.
Qed.

Lemma channel_after_send w p inst buf h t i m :
  channel w p inst buf h t -> 0 <= i < msgBufSize inst ->
  channel (after_send inst buf i m w) p inst (<[Z.to_nat i := m]> buf) i t.
Proof.
  intros [] Hi. constructor; simpl; try done.
  - apply lookup_insert_eq.
  - by rewrite lookup_insert_ne.
  - apply lookup_insert_eq.
  - by rewrite length_insert.
Qed.

(** *** Consumer *)

Lemma mod_cases x size :
  0 < size -> - size <= x < 2 * size ->
  x mod size = if x <? 0 then x + size else if x <? size then x else x - size.
Proof.
  intros Hs Hx.
  destruct (Z.ltb_spec x 0); [|destruct (Z.ltb_spec x size)].
  - symmetry. apply (Z.mod_unique_pos _ _ (-1)); lia.
  - apply Z.mod_small; lia.
  - symmetry. apply (Z.mod_unique_pos _ _ 1); lia.
Qed.

Lemma advance_tail_mod size t :
  0 <= t < size -> size <= UINT16_MAX -> advance_tail size t = (t + 1) mod size.
Proof.
  unfold advance_tail, wrap_u16, UINT16_MAX. intros Ht Hs.
  rewrite (Z.mod_small (t + 1)) by lia.
  rewrite mod_cases by lia.
  destruct (Z.geb_spec (t + 1) size), (Z.ltb_spec (t + 1) 0), (Z.ltb_spec (t + 1) size); lia.
Qed.

Lemma advance_tail_range size t : 0 < size -> 0 <= advance_tail size t < size.
Proof.
  unfold advance_tail, wrap_u16. intros Hs.
  pose proof (Z.mod_pos_bound (t + 1) 65536 ltac:(lia)).
  destruct (Z.geb_spec ((t + 1) mod 65536) size); lia.
Qed.

Lemma receive_loop_exit w p inst buf h fuel :
  channel w p inst buf h h -> MCF_receive_loop (S fuel) p w = Done (tt, w).
Proof.
  intros []. simpl.
  rewrite (bind_Done _ _ _ _ _ (load_MCF_Done _ _ _ ch_ptr0 ch_inst0)).
  rewrite (bind_Done _ _ _ _ _ (load_u16_Done _ _ _ ch_head_ptr0 ch_head0)).
  rewrite (bind_Done _ _ _ _ _ (load_u16_Done _ _ _ ch_tail_ptr0 ch_tail0)).
  by rewrite Z.eqb_refl.
Qed.

Lemma receive_loop_iter w p inst buf h t f m fuel :
  channel w p inst buf h t -> h <> t -> msgParser inst = Some f ->
  buf !! Z.to_nat (advance_tail (msgBufSize inst) t) = Some m ->
  MCF_receive_loop (S fuel) p w
  = MCF_receive_loop fuel p (after_parse inst buf (advance_tail (msgBufSize inst) t) f m w).
Proof.
  intros [] Hne Hf Hm.
  pose proof (advance_tail_range (msgBufSize inst) t ltac:(lia)) as Hi.
  simpl.
  rewrite (bind_Done _ _ _ _ _ (load_MCF_Done _ _ _ ch_ptr0 ch_inst0)).
  rewrite (bind_Done _ _ _ _ _ (load_u16_Done _ _ _ ch_head_ptr0 ch_head0)).
  rewrite (bind_Done _ _ _ _ _ (load_u16_Done _ _ _ ch_tail_ptr0 ch_tail0)).
  destruct (Z.eqb_spec h t) as [|_]; [done|]. simpl.
  rewrite (bind_Done _ _ _ _ _ (load_u16_Done _ _ _ ch_tail_ptr0 ch_tail0)).
  rewrite (bind_Done _ _ _ _ _ (store_u16_Done _ _ _ _ ch_tail_ptr0 ch_tail0)).
  erewrite bind_Done; cycle 1.
  { apply load_u16_Done; [done|]. simpl. apply lookup_insert_eq. }
  revert Hm Hi. unfold advance_tail, after_parse.
  destruct (Z.geb_spec (wrap_u16 (t + 1)) (msgBufSize inst)); intros Hm Hi.
  - erewrite bind_Done; cycle 1.
    { eapply store_u16_Done; [done|]. simpl. apply lookup_insert_eq. }
    erewrite bind_Done; cycle 1.
    { apply load_u16_Done; [done|]. simpl. apply lookup_insert_eq. }
    rewrite Hf.
    erewrite bind_Done; cycle 1.
    { by eapply call_parser_Done. }
    simpl. unfold set_user, set_buffers, set_cursors. simpl.
    by rewrite insert_insert_eq.
  - rewrite bind_ret.
    erewrite bind_Done; cycle 1.
    { apply load_u16_Done; [done|]. simpl. apply lookup_insert_eq. }
    rewrite Hf.
    erewrite bind_Done; cycle 1.
    { eapply call_parser_Done; [done|done|lia|done]. }
    done.
Qed.

Lemma channel_after_parse w p inst buf h t i f m :
  channel w p inst buf h t -> 0 <= i < msgBufSize inst ->
  channel (after_parse inst buf i f m w) p inst
    (<[Z.to_nat i := fst (f m (user w))]> buf) h i.
Proof.
  intros [] Hi. constructor; simpl; try done.
  - by rewrite lookup_insert_ne.
  - apply lookup_insert_eq.
  - apply lookup_insert_eq.
  - by rewrite length_insert.
Qed.

Lemma after_drain_id w p inst buf h :
  channel w p inst buf h h -> after_drain inst buf h (user w) w = w.
Proof.
  intros []. destruct w as [insts curs bufs u]; simpl in *.
  unfold after_drain, set_user, set_buffers, set_cursors; simpl.
  by rewrite !insert_id.
Qed.

Lemma after_drain_after_parse inst buf buf' i f m h u' w :
  after_drain inst buf' h u' (after_parse inst buf i f m w) = after_drain inst buf' h u' w.
Proof.
  unfold after_drain, after_parse, set_user, set_buffers, set_cursors; simpl.
  by rewrite !insert_insert_eq.
Qed.

Lemma ring_index_0 size t : ring_index size t 0 = (t + 1) mod size.
Proof. unfold ring_index. f_equal. lia. Qed.

Lemma ring_index_S size t k :
  ring_index size ((t + 1) mod size) k = ring_index size t (S k).
Proof.
  unfold ring_index.
  rewrite <- Z.add_assoc, Zplus_mod_idemp_l. f_equal. lia.
Qed.

Lemma ring_index_range size t k : 0 < size -> 0 <= ring_index size t k < size.
Proof. intros Hs. unfold ring_index. by apply Z.mod_pos_bound. Qed.

Lemma ring_index_inj size t j k :
  0 < size -> - size < Z.of_nat j - Z.of_nat k < size ->
  ring_index size t j = ring_index size t k -> j = k.
Proof.
  unfold ring_index. intros Hs Hjk Heq.
  assert (Hmod : (Z.of_nat j - Z.of_nat k) mod size = 0).
  { replace (Z.of_nat j - Z.of_nat k)
      with ((t + 1 + Z.of_nat j) - (t + 1 + Z.of_nat k)) by lia.
    rewrite Zminus_mod, Heq, Z.sub_diag. by apply Z.mod_0_l; lia. }
  rewrite mod_cases in Hmod by lia.
  destruct (Z.ltb_spec (Z.of_nat j - Z.of_nat k) 0),
           (Z.ltb_spec (Z.of_nat j - Z.of_nat k) size); lia.
Qed.

Lemma distance_0 size h t :
  0 <= h < size -> 0 <= t < size -> (h - t) mod size = 0 -> h = t.
Proof.
  intros Hh Ht. rewrite mod_cases by lia.
  destruct (Z.ltb_spec (h - t) 0), (Z.ltb_spec (h - t) size); lia.
Qed.

Lemma distance_step size h t :
  0 <= h < size -> 0 <= t < size -> h <> t ->
  (h - (t + 1) mod size) mod size = (h - t) mod size - 1.
Proof.
  intros Hh Ht Hne.
  rewrite (mod_cases (t + 1)) by lia.
  destruct (Z.ltb_spec (t + 1) 0), (Z.ltb_spec (t + 1) size); try lia;
    rewrite !mod_cases by lia;
    repeat match goal with |- context [?a <? ?b] => destruct (Z.ltb_spec a b) end; lia.
Qed.

Lemma deliver_app (f : parser_fn U) msgs1 msgs2 u :
  deliver f (msgs1 ++ msgs2) u = deliver f msgs2 (deliver f msgs1 u).
Proof. apply fold_left_app. Qed.

(** A drain hands the slots between the cursors to the parser, first to
    last, and leaves tail equal to head. *)
Lemma receive_loop_drain p inst f h msgs :
  forall w buf t fuel,
    channel w p inst buf h t -> msgParser inst = Some f ->
    0 <= h < msgBufSize inst -> 0 <= t < msgBufSize inst ->
    Z.of_nat (length msgs) = (h - t) mod msgBufSize inst ->
    slots_after (msgBufSize inst) t buf msgs ->
    (length msgs < fuel)%nat ->
    exists buf', length buf' = length buf /\
      MCF_receive_loop fuel p w
      = Done (tt, after_drain inst buf' h (deliver f msgs (user w)) w).
Proof.
  induction msgs as [|m rest IH]; intros w buf t fuel Hch Hf Hh Ht Hlen Hslots Hfuel.
  - destruct fuel as [|fuel]; [simpl in Hfuel; lia|].
    simpl in Hlen. symmetry in Hlen. apply distance_0 in Hlen; [|done..]. subst t.
    exists buf. split; [done|].
    rewrite (receive_loop_exit _ _ _ _ _ _ Hch). simpl.
    by rewrite (after_drain_id _ _ _ _ _ Hch).
  - destruct fuel as [|fuel]; [simpl in Hfuel; lia|].
    pose proof (ch_size _ _ _ _ _ _ Hch) as Hsize.
    assert (Hne : h <> t).
    { intros ->. rewrite Z.sub_diag, Z.mod_0_l in Hlen by lia. simpl in Hlen. lia. }
    assert (Hd : Z.of_nat (length (m :: rest)) < msgBufSize inst).
    { rewrite Hlen. apply Z.mod_pos_bound. lia. }
    pose proof (Hslots 0%nat ltac:(simpl; lia)) as Hm.
    rewrite ring_index_0, <- advance_tail_mod in Hm by lia. simpl in Hm.
    rewrite (receive_loop_iter _ _ _ _ _ _ _ _ _ Hch Hne Hf Hm).
    rewrite advance_tail_mod in * by lia.
    pose proof (Z.mod_pos_bound (t + 1) (msgBufSize inst) ltac:(lia)) as Ht'.
    destruct (IH _ _ _ fuel (channel_after_parse _ _ _ _ _ _ _ f m Hch Ht') Hf Hh Ht')
      as (buf' & Hlen' & Hrun).
    + rewrite distance_step by done. simpl in Hlen. lia.
    + intros k Hk. rewrite ring_index_S.
      rewrite list_lookup_insert_ne.
      * apply (Hslots (S k)). simpl. lia.
      * rewrite <- ring_index_0. intros Heq.
        apply Z2Nat.inj in Heq; try (apply ring_index_range; lia).
        simpl in Hd. apply ring_index_inj in Heq; lia.
    + simpl in Hfuel. lia.
    + exists buf'. split; [by rewrite Hlen', length_insert|].
      by rewrite Hrun, after_drain_after_parse.
Qed.

(** *** The pending messages *)

Lemma read_ring_length size buf t d :
  0 < size -> size <= Z.of_nat (length buf) -> length (read_ring size buf t d) = d.
Proof.
  intros Hs Hlen. revert t. induction d as [|d IH]; intros t; [done|]. simpl.
  pose proof (Z.mod_pos_bound (t + 1) size Hs).
  destruct (lookup_lt_is_Some_2 buf (Z.to_nat ((t + 1) mod size)) ltac:(lia)) as [m ->].
  simpl. by rewrite IH.
Qed.

Lemma read_ring_slots size buf t d :
  0 < size -> size <= Z.of_nat (length buf) ->
  slots_after size t buf (read_ring size buf t d).
Proof.
  intros Hs Hlen. revert t. induction d as [|d IH]; intros t k Hk; simpl in *; [lia|].
  pose proof (Z.mod_pos_bound (t + 1) size Hs).
  destruct (lookup_lt_is_Some_2 buf (Z.to_nat ((t + 1) mod size)) ltac:(lia)) as [m Hm].
  rewrite Hm in *. destruct k as [|k]; simpl in *.
  - by rewrite ring_index_0.
  - rewrite <- ring_index_S. apply IH. lia.
Qed.

Lemma pending_length size buf h t :
  0 < size -> size <= Z.of_nat (length buf) ->
  Z.of_nat (length (pending size buf h t)) = (h - t) mod size.
Proof.
  intros Hs Hlen. unfold pending. rewrite read_ring_length by done.
  pose proof (Z.mod_pos_bound (h - t) size Hs). lia.
Qed.

(** A list that fills the slots after [t] up to [h] is the pending list. *)
Lemma slots_after_pending size buf h t msgs :
  0 < size -> size <= Z.of_nat (length buf) ->
  Z.of_nat (length msgs) = (h - t) mod size -> slots_after size t buf msgs ->
  msgs = pending size buf h t.
Proof.
  intros Hs Hlen Hd Hslots.
  apply list_eq_same_length with (length msgs); [|done|].
  - apply Nat2Z.inj. by rewrite pending_length.
  - intros k x y Hk Hx Hy.
    pose proof (Hslots k Hk) as H1.
    pose proof (read_ring_slots size buf t (Z.to_nat ((h - t) mod size)) Hs Hlen k) as H2.
    fold (pending size buf h t) in H2.
    rewrite <- H1, H2 in Hx; [congruence|].
    apply Nat2Z.inj_lt. rewrite pending_length by done. lia.
Qed.

(** *** Configuration *)

Ltac step_modify :=
  erewrite bind_Done;
  [| eapply modify_MCF_Done; [done | simpl; first [eassumption | apply lookup_insert_eq]]].

Ltac step_load :=
  erewrite bind_Done;
  [| eapply load_MCF_Done; [done | simpl; first [eassumption | apply lookup_insert_eq]]].

Lemma init_asserts_TX p hp tp bp size :
  p <> NULL -> hp <> NULL -> tp <> NULL -> bp <> NULL -> 0 < size ->
  negb (is_null p) && negb (is_null hp) && negb (is_null tp) && negb (is_null bp)
  && (0 <? size) = true.
Proof.
  intros. rewrite !is_null_false by done. simpl. by apply Z.ltb_lt.
Qed.

Lemma init_asserts_RX p hp tp bp size (f : parser_fn U) :
  p <> NULL -> hp <> NULL -> tp <> NULL -> bp <> NULL -> 0 < size ->
  negb (is_null p) && negb (is_null hp) && negb (is_null tp) && negb (is_null bp)
  && (0 <? size) && bool_decide (is_Some (Some f)) = true.
Proof.
  intros. rewrite init_asserts_TX by done. by apply bool_decide_eq_true.
Qed.

Lemma MCF_init_TX_Done w p hp tp bp size buf inst0 :
  storage w p hp tp bp size buf -> instances w !! p = Some inst0 ->
  MCF_init_TX p hp tp bp size w
  = Done (tt, configured p (mkMCF bp hp tp size (msgParser inst0))
                (<[hp := 0]> (cursors w)) w).
Proof.
  intros [] Hinst. destruct st_head0 as [h0 Hh0]. unfold MCF_init_TX.
  rewrite init_asserts_TX by (done || lia). rewrite bind_assert_true.
  do 4 step_modify. step_load.
  erewrite store_u16_Done; [|done|simpl; done].
  unfold configured, set_cursors, set_instances. simpl.
  by rewrite !insert_insert_eq.
Qed.

Lemma MCF_init_RX_Done w p hp tp bp size buf inst0 f :
  storage w p hp tp bp size buf -> instances w !! p = Some inst0 ->
  MCF_init_RX p hp tp bp size (Some f) w
  = Done (tt, configured p (mkMCF bp hp tp size (Some f)) (<[tp := 0]> (cursors w)) w).
Proof.
  intros [] Hinst. destruct st_tail0 as [t0 Ht0]. unfold MCF_init_RX.
  rewrite init_asserts_RX by (done || lia). rewrite bind_assert_true.
  do 5 step_modify. step_load.
  erewrite store_u16_Done; [|done|simpl; done].
  unfold configured, set_cursors, set_instances. simpl.
  by rewrite !insert_insert_eq.
Qed.

Lemma MCF_init_RXTX_Done w p hp tp bp size buf inst0 f :
  storage w p hp tp bp size buf -> instances w !! p = Some inst0 ->
  MCF_init_RXTX p hp tp bp size (Some f) w
  = Done (tt, configured p (mkMCF bp hp tp size (Some f))
                (<[hp := 0]> (<[tp := 0]> (cursors w))) w).
Proof.
  intros [] Hinst. destruct st_tail0 as [t0 Ht0]. destruct st_head0 as [h0 Hh0].
  unfold MCF_init_RXTX.
  rewrite init_asserts_RX by (done || lia). rewrite bind_assert_true.
  do 5 step_modify. step_load.
  erewrite bind_Done; [|eapply store_u16_Done; [done|simpl; done]].
  step_load.
  erewrite store_u16_Done; [|done|simpl; by rewrite lookup_insert_ne].
  unfold configured, set_cursors, set_instances. simpl.
  by rewrite !insert_insert_eq.
Qed.

(** A combined configuration yields an empty, well-formed channel. *)
Lemma channel_after_init_RXTX w p hp tp bp size buf inst' curs :
  storage w p hp tp bp size buf ->
  inst' = mkMCF bp hp tp size (msgParser inst') ->
  curs !! hp = Some 0 -> curs !! tp = Some 0 ->
  channel (configured p inst' curs w) p inst' buf 0 0.
Proof.
  intros [] -> Hh Ht. constructor; simpl; try done.
  apply lookup_insert_eq.
Qed.

(** *** Frame of a producer call *)

Lemma slot_of_after_send w p inst buf h t i m j :
  channel w p inst buf h t -> 0 <= i < msgBufSize inst ->
  slot_of (after_send inst buf i m w) (msgBuf inst) j
  = if decide (j = i) then Some m else slot_of w (msgBuf inst) j.
Proof.
  intros [] Hi. unfold slot_of. simpl.
  rewrite (is_null_false _ ch_buf_ptr0), lookup_insert_eq, ch_buf0.
  destruct (Z.leb_spec 0 j); case_decide; subst; try done; try lia.
  - apply list_lookup_insert_eq. lia.
  - apply list_lookup_insert_ne. lia.
Qed.

Lemma publishes_send_with w p inst buf h t pl id :
  channel w p inst buf h t -> 0 <= h < msgBufSize inst ->
  publishes (send_with pl p id) w inst ((h + 1) mod msgBufSize inst) (mkMsg id pl).
Proof.
  intros Hch Hh. pose proof (ch_size _ _ _ _ _ _ Hch) as Hsize.
  assert (Hu : is_u16 h) by (unfold is_u16; lia).
  pose proof (advance_range (msgBufSize inst) h ltac:(lia) Hu) as Hi.
  eexists. split; [by eapply send_with_Done|].
  rewrite <- advance_mod by lia. split.
  - simpl. apply lookup_insert_eq.
  - rewrite (slot_of_after_send _ _ _ _ _ _ _ _ _ Hch Hi). by case_decide.
Qed.

Lemma writes_only_send_with w p inst buf h t pl id :
  channel w p inst buf h t -> 0 <= h < msgBufSize inst ->
  writes_only (send_with pl p id) w p inst t ((h + 1) mod msgBufSize inst).
Proof.
  intros Hch Hh. pose proof (ch_size _ _ _ _ _ _ Hch) as Hsize.
  assert (Hu : is_u16 h) by (unfold is_u16; lia).
  pose proof (advance_range (msgBufSize inst) h ltac:(lia) Hu) as Hi.
  eexists. split; [by eapply send_with_Done|].
  rewrite <- advance_mod by lia.
  pose proof (channel_after_send _ _ _ _ _ _ _ (mkMsg id pl) Hch Hi) as Hch'.
  split; [by destruct Hch'|]. split; [by destruct Hch'|].
  split; [|split; [done|split; [done|split]]].
  - intros j Hj. rewrite (slot_of_after_send _ _ _ _ _ _ _ _ _ Hch Hi). by case_decide.
  - intros q Hq. simpl. by rewrite lookup_insert_ne.
  - intros b Hb. simpl. by rewrite lookup_insert_ne.
Qed.

(** ** Properties of the producers *)

(** C2.  On a well-formed channel whose head cursor is in range, each of
    the five producers sets the head cursor to [(head + 1) mod capacity]
    and leaves, in the slot at that new index, the value in the union
    member of its type and the identifier in [msgID]. *)
Theorem MCF_send_publishes_next_slot w p inst buf h t id :
  channel w p inst buf h t -> 0 <= h < msgBufSize inst ->
  (forall v, publishes (MCF_send_u16 p id v) w inst
               ((h + 1) mod msgBufSize inst) (mkMsg id (u16 v))) /\
  (forall v, publishes (MCF_send_i16 p id v) w inst
               ((h + 1) mod msgBufSize inst) (mkMsg id (i16 v))) /\
  (forall v, publishes (MCF_send_u32 p id v) w inst
               ((h + 1) mod msgBufSize inst) (mkMsg id (u32 v))) /\
  (forall v, publishes (MCF_send_i32 p id v) w inst
               ((h + 1) mod msgBufSize inst) (mkMsg id (i32 v))) /\
  (forall v, publishes (MCF_send_f32 p id v) w inst
               ((h + 1) mod msgBufSize inst) (mkMsg id (f32 v))).
Proof.
  intros Hch Hh. repeat split; intros v.
  - exact (publishes_send_with _ _ _ _ _ _ (u16 v) id Hch Hh).
  - exact (publishes_send_with _ _ _ _ _ _ (i16 v) id Hch Hh).
  - exact (publishes_send_with _ _ _ _ _ _ (u32 v) id Hch Hh).
  - exact (publishes_send_with _ _ _ _ _ _ (i32 v) id Hch Hh).
  - exact (publishes_send_with _ _ _ _ _ _ (f32 v) id Hch Hh).
Qed.

(** C7.  On a well-formed channel whose head cursor is in range, a
    producer call changes nothing but the head cursor and the slot at
    index [(head + 1) mod capacity]: the tail cursor, the instance (its
    capacity and parser fields included) and every other slot of the
    array are as before, as is the rest of the store. *)
Theorem MCF_send_writes_only_next_slot w p inst buf h t id :
  channel w p inst buf h t -> 0 <= h < msgBufSize inst ->
  (forall v, writes_only (MCF_send_u16 p id v) w p inst t ((h + 1) mod msgBufSize inst)) /\
  (forall v, writes_only (MCF_send_i16 p id v) w p inst t ((h + 1) mod msgBufSize inst)) /\
  (forall v, writes_only (MCF_send_u32 p id v) w p inst t ((h + 1) mod msgBufSize inst)) /\
  (forall v, writes_only (MCF_send_i32 p id v) w p inst t ((h + 1) mod msgBufSize inst)) /\
  (forall v, writes_only (MCF_send_f32 p id v) w p inst t ((h + 1) mod msgBufSize inst)).
Proof.
  intros Hch Hh. repeat split; intros v.
  - exact (writes_only_send_with _ _ _ _ _ _ (u16 v) id Hch Hh).
  - exact (writes_only_send_with _ _ _ _ _ _ (i16 v) id Hch Hh).
  - exact (writes_only_send_with _ _ _ _ _ _ (u32 v) id Hch Hh).
  - exact (writes_only_send_with _ _ _ _ _ _ (i32 v) id Hch Hh).
  - exact (writes_only_send_with _ _ _ _ _ _ (f32 v) id Hch Hh).
Qed.

(** ** Properties of the configuration calls *)

(** C6.  Each configuration call stores the array pointer, the cursor
    pointers and the capacity into the instance; the receive and combined
    modes also store the parser, the transmit mode leaves that field as
    it was.  The transmit mode resets the head cursor and does not write
    the tail cursor; the receive mode resets the tail cursor and does not
    write the head cursor; the combined mode resets both.  Nothing else
    in the store changes. *)
Theorem MCF_init_resets_owned_cursors w p hp tp bp size buf inst0 f :
  storage w p hp tp bp size buf -> instances w !! p = Some inst0 ->
  (exists w', MCF_init_TX p hp tp bp size w = Done (tt, w') /\
     w' = configured p (mkMCF bp hp tp size (msgParser inst0)) (<[hp := 0]> (cursors w)) w /\
     cursors w' !! hp = Some 0 /\ cursors w' !! tp = cursors w !! tp) /\
  (exists w', MCF_init_RX p hp tp bp size (Some f) w = Done (tt, w') /\
     w' = configured p (mkMCF bp hp tp size (Some f)) (<[tp := 0]> (cursors w)) w /\
     cursors w' !! tp = Some 0 /\ cursors w' !! hp = cursors w !! hp) /\
  (exists w', MCF_init_RXTX p hp tp bp size (Some f) w = Done (tt, w') /\
     w' = configured p (mkMCF bp hp tp size (Some f))
            (<[hp := 0]> (<[tp := 0]> (cursors w))) w /\
     cursors w' !! hp = Some 0 /\ cursors w' !! tp = Some 0).
Proof.
  intros Hst Hinst. pose proof (st_sep _ _ _ _ _ _ _ Hst) as Hsep.
  split; [|split].
  - eexists. split; [by eapply MCF_init_TX_Done|]. split; [done|]. simpl.
    by rewrite lookup_insert_eq, lookup_insert_ne.
  - eexists. split; [by eapply MCF_init_RX_Done|]. split; [done|]. simpl.
    by rewrite lookup_insert_eq, lookup_insert_ne.
  - eexists. split; [by eapply MCF_init_RXTX_Done|]. split; [done|]. simpl.
    by rewrite lookup_insert_eq, lookup_insert_ne, lookup_insert_eq.
Qed.

(** ** Properties of the consumer *)

Lemma MCF_receive_is_loop w p fuel :
  p <> NULL -> MCF_receive fuel p w = MCF_receive_loop fuel p w.
Proof. intros Hp. unfold MCF_receive. by rewrite bind_assert_nonnull. Qed.

Lemma channel_after_drain w p inst buf buf' h t u' :
  channel w p inst buf h t -> length buf' = length buf ->
  channel (after_drain inst buf' h u' w) p inst buf' h h.
Proof.
  intros [] Hlen. constructor; simpl; try done.
  - by rewrite lookup_insert_ne.
  - apply lookup_insert_eq.
  - apply lookup_insert_eq.
  - by rewrite Hlen.
Qed.

Lemma MCF_receive_Done w p inst buf h t f fuel :
  channel w p inst buf h t -> msgParser inst = Some f ->
  0 <= h < msgBufSize inst -> 0 <= t < msgBufSize inst ->
  (length (pending (msgBufSize inst) buf h t) < fuel)%nat ->
  exists buf', length buf' = length buf /\
    MCF_receive fuel p w
    = Done (tt, after_drain inst buf' h
                  (deliver f (pending (msgBufSize inst) buf h t) (user w)) w).
Proof.
  intros Hch Hf Hh Ht Hfuel. destruct (Hch) as [].
  rewrite MCF_receive_is_loop by done.
  eapply receive_loop_drain; try done.
  - apply pending_length; lia.
  - apply read_ring_slots; lia.
Qed.

Lemma MCF_receive_empty w p inst buf h fuel :
  channel w p inst buf h h -> MCF_receive (S fuel) p w = Done (tt, w).
Proof.
  intros Hch. rewrite MCF_receive_is_loop by by destruct Hch.
  by eapply receive_loop_exit.
Qed.

(** C3.  On a well-formed channel with both cursors in range, one call of
    [MCF_receive] invokes the parser once for each of the
    [d = (head - tail) mod capacity] slots that follow the tail, in ring
    order, and returns with tail equal to head.  Each iteration moves the
    tail to [(tail + 1) mod capacity] and runs the parser on the slot at
    that new index.  With head equal to tail (as after a combined
    configuration) the call returns at once: the parser is not invoked
    and the store, cursors included, is unchanged. *)
Theorem MCF_receive_drains_pending w p inst buf h t f :
  channel w p inst buf h t -> msgParser inst = Some f ->
  0 <= h < msgBufSize inst -> 0 <= t < msgBufSize inst ->
  Z.of_nat (length (pending (msgBufSize inst) buf h t)) = (h - t) mod msgBufSize inst /\
  slots_after (msgBufSize inst) t buf (pending (msgBufSize inst) buf h t) /\
  (h <> t ->
   exists m, buf !! Z.to_nat ((t + 1) mod msgBufSize inst) = Some m /\
     forall fuel,
       MCF_receive (S fuel) p w
       = MCF_receive fuel p (after_parse inst buf ((t + 1) mod msgBufSize inst) f m w)) /\
  (forall fuel, (length (pending (msgBufSize inst) buf h t) < fuel)%nat ->
   exists w', MCF_receive fuel p w = Done (tt, w') /\
     user w' = deliver f (pending (msgBufSize inst) buf h t) (user w) /\
     cursors w' !! tail inst = Some h /\ cursors w' !! head inst = Some h) /\
  (h = t -> forall fuel, MCF_receive (S fuel) p w = Done (tt, w)) /\
  (forall w0 p0 hp tp bp size buf0 inst0 fuel,
     storage w0 p0 hp tp bp size buf0 -> instances w0 !! p0 = Some inst0 ->
     exists w1, MCF_init_RXTX p0 hp tp bp size (Some f) w0 = Done (tt, w1) /\
       MCF_receive (S fuel) p0 w1 = Done (tt, w1) /\
       cursors w1 !! hp = Some 0 /\ cursors w1 !! tp = Some 0).
Proof.
  intros Hch Hf Hh Ht.
  pose proof (ch_size _ _ _ _ _ _ Hch) as Hsize.
  pose proof (ch_len _ _ _ _ _ _ Hch) as Hlen.
  pose proof (ch_ptr _ _ _ _ _ _ Hch) as Hp.
  split; [by apply pending_length; lia|].
  split; [by apply read_ring_slots; lia|].
  split; [|split; [|split]].
  - intros Hne.
    pose proof (Z.mod_pos_bound (t + 1) (msgBufSize inst) ltac:(lia)) as Hi.
    destruct (lookup_lt_is_Some_2 buf (Z.to_nat ((t + 1) mod msgBufSize inst))
                ltac:(lia)) as [m Hm].
    exists m. split; [done|]. intros fuel.
    rewrite !MCF_receive_is_loop by done.
    rewrite <- advance_tail_mod in * by lia.
    by apply receive_loop_iter with h.
  - intros fuel Hfuel.
    destruct (MCF_receive_Done _ _ _ _ _ _ _ _ Hch Hf Hh Ht Hfuel) as (buf' & Hlen' & Hrun).
    eexists. split; [exact Hrun|].
    pose proof (channel_after_drain _ _ _ _ buf' _ _
                  (deliver f (pending (msgBufSize inst) buf h t) (user w)) Hch Hlen') as Hch'.
    split; [done|]. by destruct Hch'.
  - intros <- fuel. by eapply MCF_receive_empty.
  - intros w0 p0 hp tp bp size buf0 inst0 fuel Hst Hinst0.
    pose proof (st_sep _ _ _ _ _ _ _ Hst) as Hsep.
    eexists. split; [by eapply MCF_init_RXTX_Done|].
    assert (Hch0 : channel
              (configured p0 (mkMCF bp hp tp size (Some f))
                 (<[hp := 0]> (<[tp := 0]> (cursors w0))) w0)
              p0 (mkMCF bp hp tp size (Some f)) buf0 0 0).
    { apply (channel_after_init_RXTX w0 p0 hp tp bp size buf0);
        [done|done|apply lookup_insert_eq|].
      by rewrite lookup_insert_ne, lookup_insert_eq. }
    split; [by eapply MCF_receive_empty|].
    by destruct Hch0.
Qed.

(** C4.  With the head cursor in range (and whatever the tail cursor
    holds), [MCF_receive] returns: [capacity + 1] evaluations of the loop
    condition are always enough, and the call leaves tail equal to head.
    When head equals tail at the first test the call returns there,
    without invoking the parser and without changing the store. *)
Theorem MCF_receive_terminates w p inst buf h t f :
  channel w p inst buf h t -> msgParser inst = Some f ->
  0 <= h < msgBufSize inst ->
  (forall fuel, (Z.to_nat (msgBufSize inst) < fuel)%nat ->
   exists w', MCF_receive fuel p w = Done (tt, w') /\
     cursors w' !! tail inst = Some h /\ cursors w' !! head inst = Some h) /\
  (h = t -> forall fuel, MCF_receive (S fuel) p w = Done (tt, w)).
Proof.
  intros Hch Hf Hh.
  pose proof (ch_size _ _ _ _ _ _ Hch) as Hsize.
  pose proof (ch_len _ _ _ _ _ _ Hch) as Hlen.
  pose proof (ch_ptr _ _ _ _ _ _ Hch) as Hp.
  split; [|intros <- fuel; by eapply MCF_receive_empty].
  intros fuel Hfuel. destruct fuel as [|fuel]; [lia|].
  destruct (Z.eq_dec h t) as [<-|Hne].
  { exists w. split; [by eapply MCF_receive_empty|]. by destruct Hch. }
  set (i := advance_tail (msgBufSize inst) t).
  pose proof (advance_tail_range (msgBufSize inst) t ltac:(lia)) as Hi. fold i in Hi.
  destruct (lookup_lt_is_Some_2 buf (Z.to_nat i) ltac:(lia)) as [m Hm].
  rewrite MCF_receive_is_loop by done.
  rewrite (receive_loop_iter _ _ _ _ _ _ _ _ _ Hch Hne Hf Hm). fold i.
  pose proof (channel_after_parse _ _ _ _ _ _ _ f m Hch Hi) as Hch1.
  rewrite <- MCF_receive_is_loop by done.
  destruct (MCF_receive_Done _ _ _ _ _ _ _ fuel Hch1 Hf Hh Hi) as (buf' & Hlen' & Hrun).
  { apply Nat2Z.inj_lt. rewrite pending_length by (rewrite ?length_insert; lia).
    pose proof (Z.mod_pos_bound (h - i) (msgBufSize inst) ltac:(lia)). lia. }
  eexists. split; [exact Hrun|].
  pose proof (channel_after_drain _ _ _ _ buf' _ _
    (deliver f (pending (msgBufSize inst) (<[Z.to_nat i:=(f m (user w)).1]> buf) h i)
       (user (after_parse inst buf i f m w))) Hch1 Hlen') as Hch'.
  by destruct Hch'.
Qed.

(** ** The cursor invariant *)

Lemma establishes_range_send_with w p inst buf h t pl id :
  channel w p inst buf h t -> 0 <= h < msgBufSize inst -> 0 <= t < msgBufSize inst ->
  establishes_range (send_with pl p id) w p.
Proof.
  intros Hch Hh Ht. pose proof (ch_size _ _ _ _ _ _ Hch) as Hsize.
  destruct (writes_only_send_with _ _ _ _ _ _ pl id Hch Hh)
    as (w' & Hrun & Htail & Hinst & _).
  destruct (publishes_send_with _ _ _ _ _ _ pl id Hch Hh) as (w'' & Hrun' & Hhead & _).
  rewrite Hrun in Hrun'. injection Hrun' as <-.
  exists w', inst. split; [done|]. split; [done|].
  exists ((h + 1) mod msgBufSize inst), t. repeat split; try done; try lia;
    apply Z.mod_pos_bound; lia.
Qed.

(** C5.  Every operation keeps both cursors inside [0, capacity): the
    transmit configuration when the tail cursor it does not own is in
    range for the new capacity, the receive configuration likewise for
    the head cursor, the combined configuration always, and the five
    producers and the consumer whenever both cursors are in range before
    the call.  The producers need no parser in the instance (they hold
    on an instance configured for transmission only); the consumer is
    called on an instance that has one. *)
Theorem MCF_cursors_stay_in_range w0 p0 hp tp bp size buf0 h0 t0 w p inst buf h t f :
  storage w0 p0 hp tp bp size buf0 ->
  cursors w0 !! hp = Some h0 -> cursors w0 !! tp = Some t0 ->
  channel w p inst buf h t ->
  0 <= h < msgBufSize inst -> 0 <= t < msgBufSize inst ->
  (0 <= t0 < size -> establishes_range (MCF_init_TX p0 hp tp bp size) w0 p0) /\
  (0 <= h0 < size -> establishes_range (MCF_init_RX p0 hp tp bp size (Some f)) w0 p0) /\
  establishes_range (MCF_init_RXTX p0 hp tp bp size (Some f)) w0 p0 /\
  (forall id v, establishes_range (MCF_send_u16 p id v) w p) /\
  (forall id v, establishes_range (MCF_send_i16 p id v) w p) /\
  (forall id v, establishes_range (MCF_send_u32 p id v) w p) /\
  (forall id v, establishes_range (MCF_send_i32 p id v) w p) /\
  (forall id v, establishes_range (MCF_send_f32 p id v) w p) /\
  (forall fuel, msgParser inst = Some f -> (Z.to_nat (msgBufSize inst) < fuel)%nat ->
     establishes_range (MCF_receive fuel p) w p).
Proof.
  intros Hst Hh0 Ht0 Hch Hh Ht.
  pose proof (st_sep _ _ _ _ _ _ _ Hst) as Hsep.
  pose proof (st_size _ _ _ _ _ _ _ Hst) as Hsize0.
  destruct (st_inst _ _ _ _ _ _ _ Hst) as [inst0 Hinst0].
  split; [|split; [|split]].
  - intros Hr. eexists _, _. split; [by eapply MCF_init_TX_Done|].
    split; [simpl; apply lookup_insert_eq|].
    exists 0, t0. simpl. rewrite lookup_insert_eq, lookup_insert_ne by done.
    repeat split; (done || lia).
  - intros Hr. eexists _, _. split; [by eapply MCF_init_RX_Done|].
    split; [simpl; apply lookup_insert_eq|].
    exists h0, 0. simpl. rewrite lookup_insert_eq, lookup_insert_ne by done.
    repeat split; (done || lia).
  - eexists _, _. split; [by eapply MCF_init_RXTX_Done|].
    split; [simpl; apply lookup_insert_eq|].
    exists 0, 0. simpl. rewrite lookup_insert_eq, lookup_insert_ne, lookup_insert_eq by done.
    repeat split; (done || lia).
  - repeat split.
    + intros id v. exact (establishes_range_send_with _ _ _ _ _ _ (u16 v) id Hch Hh Ht).
    + intros id v. exact (establishes_range_send_with _ _ _ _ _ _ (i16 v) id Hch Hh Ht).
    + intros id v. exact (establishes_range_send_with _ _ _ _ _ _ (u32 v) id Hch Hh Ht).
    + intros id v. exact (establishes_range_send_with _ _ _ _ _ _ (i32 v) id Hch Hh Ht).
    + intros id v. exact (establishes_range_send_with _ _ _ _ _ _ (f32 v) id Hch Hh Ht).
    + intros fuel Hf Hfuel.
      pose proof (ch_size _ _ _ _ _ _ Hch) as Hsize.
      pose proof (ch_len _ _ _ _ _ _ Hch) as Hlen.
      destruct (MCF_receive_Done _ _ _ _ _ _ _ fuel Hch Hf Hh Ht) as (buf' & Hlen' & Hrun).
      { apply Nat2Z.inj_lt. rewrite pending_length by lia.
        pose proof (Z.mod_pos_bound (h - t) (msgBufSize inst) ltac:(lia)). lia. }
      pose proof (channel_after_drain _ _ _ _ buf' _ _
        (deliver f (pending (msgBufSize inst) buf h t) (user w)) Hch Hlen') as Hch'.
      eexists _, inst. split; [exact Hrun|]. split; [by destruct Hch'|].
      exists h, h. by destruct Hch'.
Qed.

(** ** Sequences of calls *)

Lemma MCF_send_Done w p inst buf h t m :
  channel w p inst buf h t -> is_u16 h ->
  MCF_send p m w = Done (tt, after_send inst buf (advance (msgBufSize inst) h) m w).
Proof.
  intros Hch Hh. rewrite MCF_send_is_send_with.
  rewrite (send_with_Done _ _ _ _ _ _ (payload m) (msgID m) Hch Hh). by destruct m.
Qed.

(** Appending to the pending messages: the slot after the last one. *)
Lemma slots_after_snoc size buf h t q m :
  0 < size -> size <= Z.of_nat (length buf) ->
  0 <= h < size -> 0 <= t < size ->
  Z.of_nat (length q) = (h - t) mod size -> Z.of_nat (length q) + 1 < size ->
  slots_after size t buf q ->
  Z.of_nat (length (q ++ [m])) = ((h + 1) mod size - t) mod size /\
  slots_after size t (<[Z.to_nat ((h + 1) mod size) := m]> buf) (q ++ [m]).
Proof.
  intros Hs Hlen Hh Ht Hq Hcap Hslots.
  assert (Hidx : (h + 1) mod size = ring_index size t (length q)).
  { unfold ring_index. rewrite Hq.
    rewrite Zplus_mod_idemp_r. f_equal. lia. }
  split.
  - rewrite length_app, Nat2Z.inj_add, Hq. simpl.
    revert Hq Hcap. rewrite (mod_cases (h + 1)), (mod_cases (h - t)) by lia.
    repeat match goal with |- context [?a <? ?b] => destruct (Z.ltb_spec a b) end;
      intros; rewrite mod_cases by lia;
      repeat match goal with |- context [?a <? ?b] => destruct (Z.ltb_spec a b) end; lia.
  - intros k Hk. rewrite length_app in Hk. simpl in Hk.
    rewrite Hidx.
    destruct (decide (k = length q)) as [->|Hne].
    + rewrite list_lookup_insert_eq.
      * by rewrite lookup_app_r, Nat.sub_diag.
      * pose proof (ring_index_range size t (length q) Hs). lia.
    + rewrite list_lookup_insert_ne.
      * rewrite lookup_app_l by lia. apply Hslots. lia.
      * intros Heq. apply Z2Nat.inj in Heq; try (apply ring_index_range; lia).
        apply ring_index_inj in Heq; lia.
Qed.

(** The ring buffer refines the FIFO queue as long as the queue never
    holds more than [capacity - 1] messages. *)
Lemma exec_calls_fifo p inst f fuel :
  msgParser inst = Some f -> (Z.to_nat (msgBufSize inst) < fuel)%nat ->
  forall cs w buf h t q,
    channel w p inst buf h t ->
    0 <= h < msgBufSize inst -> 0 <= t < msgBufSize inst ->
    Z.of_nat (length q) = (h - t) mod msgBufSize inst ->
    slots_after (msgBufSize inst) t buf q ->
    within_capacity (msgBufSize inst - 1) cs (Z.of_nat (length q)) = true ->
    exists w' buf' h' t',
      exec_calls fuel p cs w = Done (tt, w') /\
      channel w' p inst buf' h' t' /\
      0 <= h' < msgBufSize inst /\ 0 <= t' < msgBufSize inst /\
      user w' = snd (fifo f cs q (user w)) /\
      Z.of_nat (length (fst (fifo f cs q (user w)))) = (h' - t') mod msgBufSize inst /\
      slots_after (msgBufSize inst) t' buf' (fst (fifo f cs q (user w))).
Proof.
  intros Hf Hfuel.
  induction cs as [|[m|] cs IH]; intros w buf h t q Hch Hh Ht Hq Hslots Hcap.
  - exists w, buf, h, t. simpl. by repeat (split; [done|]).
  - simpl in Hcap. apply andb_prop in Hcap as [Hone Hcap]. apply Z.leb_le in Hone.
    pose proof (ch_size _ _ _ _ _ _ Hch) as Hsize.
    pose proof (ch_len _ _ _ _ _ _ Hch) as Hlen.
    assert (Hu : is_u16 h) by (unfold is_u16; lia).
    simpl. rewrite (bind_Done _ _ _ _ _ (MCF_send_Done _ _ _ _ _ _ m Hch Hu)).
    rewrite advance_mod by lia.
    pose proof (Z.mod_pos_bound (h + 1) (msgBufSize inst) ltac:(lia)) as Hi.
    destruct (slots_after_snoc (msgBufSize inst) buf h t q m
                ltac:(lia) Hlen Hh Ht Hq ltac:(lia) Hslots)
      as [Hq' Hslots'].
    apply (IH _ _ _ _ _ (channel_after_send _ _ _ _ _ _ _ m Hch Hi) Hi Ht Hq' Hslots').
    rewrite length_app, Nat2Z.inj_add. exact Hcap.
  - simpl in Hcap.
    pose proof (ch_size _ _ _ _ _ _ Hch) as Hsize.
    pose proof (ch_len _ _ _ _ _ _ Hch) as Hlen.
    pose proof (slots_after_pending (msgBufSize inst) buf h t q
                  ltac:(lia) Hlen Hq Hslots) as Hqp.
    destruct (MCF_receive_Done _ _ _ _ _ _ _ fuel Hch Hf Hh Ht) as (buf' & Hlen' & Hrun).
    { apply Nat2Z.inj_lt. rewrite <- Hqp, Hq.
      pose proof (Z.mod_pos_bound (h - t) (msgBufSize inst) ltac:(lia)). lia. }
    rewrite <- Hqp in Hrun. simpl. rewrite (bind_Done _ _ _ _ _ Hrun).
    apply (IH _ _ _ _ [] (channel_after_drain _ _ _ _ buf' _ _ _ Hch Hlen') Hh Hh).
    + by rewrite Z.sub_diag, Z.mod_0_l by lia.
    + intros k Hk. simpl in Hk. lia.
    + exact Hcap.
Qed.

Lemma fifo_sends (f : parser_fn U) msgs cs q u :
  fifo f (sends msgs ++ cs) q u = fifo f cs (q ++ msgs) u.
Proof.
  revert q. induction msgs as [|m msgs IH]; intros q; simpl.
  - by rewrite app_nil_r.
  - by rewrite IH, <- app_assoc.
Qed.

Lemma within_capacity_sends cap msgs cs n :
  n + Z.of_nat (length msgs) <= cap ->
  within_capacity cap (sends msgs ++ cs) n
  = within_capacity cap cs (n + Z.of_nat (length msgs)).
Proof.
  revert n. induction msgs as [|m msgs IH]; intros n Hn; simpl in *.
  - by rewrite Z.add_0_r.
  - rewrite IH by lia. destruct (Z.leb_spec (n + 1) cap); [|lia].
    simpl. f_equal. lia.
Qed.

(** C1.  After a combined configuration, for every sequence of sends
    (of any of the five types) and drains that never leaves more than
    [capacity - 1] messages pending, the calls all return and behave like
    a FIFO queue: each [MCF_receive] hands to the parser exactly the
    messages sent since the previous drain, in the order they were sent,
    each with the identifier and payload given to its send, and the
    messages left between the cursors are those not yet drained.  In
    particular [capacity - 1] sends, a drain, [capacity - 1] more sends
    and a drain deliver all the messages in order. *)
Theorem MCF_delivers_in_fifo_order w0 p hp tp bp size buf0 f fuel :
  storage w0 p hp tp bp size buf0 ->
  (Z.to_nat size < fuel)%nat ->
  exists w1, MCF_init_RXTX p hp tp bp size (Some f) w0 = Done (tt, w1) /\
    (forall cs, within_capacity (size - 1) cs 0 = true ->
       exists w2 buf h t,
         exec_calls fuel p cs w1 = Done (tt, w2) /\
         user w2 = snd (fifo f cs [] (user w0)) /\
         channel w2 p (mkMCF bp hp tp size (Some f)) buf h t /\
         pending size buf h t = fst (fifo f cs [] (user w0))) /\
    (forall msgs1 msgs2,
       Z.of_nat (length msgs1) = size - 1 -> Z.of_nat (length msgs2) = size - 1 ->
       exists w2,
         exec_calls fuel p (sends msgs1 ++ Receive :: sends msgs2 ++ [Receive]) w1
         = Done (tt, w2) /\
         user w2 = deliver f (msgs1 ++ msgs2) (user w0)).
Proof.
  intros Hst Hfuel.
  pose proof (st_sep _ _ _ _ _ _ _ Hst) as Hsep.
  pose proof (st_size _ _ _ _ _ _ _ Hst) as Hsize.
  pose proof (st_len _ _ _ _ _ _ _ Hst) as Hlen.
  destruct (st_inst _ _ _ _ _ _ _ Hst) as [inst0 Hinst0].
  set (inst := mkMCF bp hp tp size (Some f)).
  set (w1 := configured p inst (<[hp := 0]> (<[tp := 0]> (cursors w0))) w0).
  assert (Hch : channel w1 p inst buf0 0 0).
  { apply (channel_after_init_RXTX w0 p hp tp bp size buf0);
      [done|done|apply lookup_insert_eq|].
    by rewrite lookup_insert_ne, lookup_insert_eq. }
  assert (Hgen : forall cs, within_capacity (size - 1) cs 0 = true ->
            exists w2 buf h t,
              exec_calls fuel p cs w1 = Done (tt, w2) /\
              user w2 = snd (fifo f cs [] (user w0)) /\
              channel w2 p inst buf h t /\
              pending size buf h t = fst (fifo f cs [] (user w0))).
  { intros cs Hcap.
    destruct (exec_calls_fifo p inst f fuel eq_refl Hfuel cs w1 buf0 0 0 [] Hch)
      as (w2 & buf & h & t & Hrun & Hch2 & Hh & Ht & Huser & Hq & Hslots);
      try (simpl; lia); try done.
    { intros k Hk. simpl in Hk. lia. }
    exists w2, buf, h, t. repeat (split; [done|]).
    symmetry. apply slots_after_pending; [lia| |done|done].
    exact (ch_len _ _ _ _ _ _ Hch2). }
  exists w1. split; [by eapply MCF_init_RXTX_Done|]. split; [exact Hgen|].
  intros msgs1 msgs2 Hl1 Hl2.
  destruct (Hgen (sends msgs1 ++ Receive :: sends msgs2 ++ [Receive]))
    as (w2 & buf & h & t & Hrun & Huser & _).
  { rewrite within_capacity_sends by lia. simpl.
    rewrite within_capacity_sends by lia. done. }
  exists w2. split; [done|].
  rewrite Huser, fifo_sends. simpl. rewrite fifo_sends. simpl.
  by rewrite deliver_app.
Qed.

(** ** Round trip of one message *)

(** C8 (as amended).  With capacity at least 2, configuring a channel,
    sending one [float] message with identifier 7 and value 3.5 and
    draining invokes the parser exactly once, on a message with [msgID] 7
    and [f32] payload 3.5, and leaves head equal to tail. *)
Theorem MCF_single_round_trip w0 p hp tp bp size buf0 f :
  storage w0 p hp tp bp size buf0 -> 2 <= size ->
  single_round_trip w0 p hp tp bp size f.
Proof.
  intros Hst Hsize2 fuel Hfuel.
  pose proof (st_sep _ _ _ _ _ _ _ Hst) as Hsep.
  pose proof (st_size _ _ _ _ _ _ _ Hst) as Hsize.
  pose proof (st_len _ _ _ _ _ _ _ Hst) as Hlen.
  destruct (st_inst _ _ _ _ _ _ _ Hst) as [inst0 Hinst0].
  set (inst := mkMCF bp hp tp size (Some f)).
  set (w1 := configured p inst (<[hp := 0]> (<[tp := 0]> (cursors w0))) w0).
  set (msg := mkMsg 7 (f32 f32_3_5)).
  assert (Hch : channel w1 p inst buf0 0 0).
  { apply (channel_after_init_RXTX w0 p hp tp bp size buf0);
      [done|done|apply lookup_insert_eq|].
    by rewrite lookup_insert_ne, lookup_insert_eq. }
  assert (Hadv : advance size 0 = 1).
  { rewrite advance_mod by lia. apply Z.mod_small. lia. }
  pose proof (channel_after_send _ _ _ _ _ _ 1 msg Hch ltac:(simpl; lia)) as Hch2.
  assert (Hpend : pending size (<[Z.to_nat 1 := msg]> buf0) 1 0 = [msg]).
  { unfold pending. rewrite Z.sub_0_r, Z.mod_small by lia. simpl.
    rewrite Z.mod_small by lia.
    rewrite list_lookup_insert_eq by lia. done. }
  destruct (MCF_receive_Done _ _ _ _ _ _ f fuel Hch2 eq_refl
              ltac:(simpl; lia) ltac:(simpl; lia)) as (buf' & Hlen' & Hrun).
  { simpl msgBufSize. rewrite Hpend. simpl. lia. }
  simpl msgBufSize in Hrun. rewrite Hpend in Hrun.
  eexists. split.
  - unfold round_trip_f32.
    rewrite (bind_Done _ _ _ _ _ (MCF_init_RXTX_Done _ _ _ _ _ _ _ _ f Hst Hinst0)).
    fold inst w1.
    change (MCF_send_f32 p 7 f32_3_5) with (send_with (U:=U) (f32 f32_3_5) p 7).
    rewrite (bind_Done _ _ _ _ _
               (send_with_Done _ _ _ _ _ _ (f32 f32_3_5) 7 Hch ltac:(unfold is_u16, UINT16_MAX; lia))).
    simpl msgBufSize. rewrite Hadv. exact Hrun.
  - split; [done|]. exists 1. simpl.
    rewrite lookup_insert_eq, lookup_insert_ne, lookup_insert_eq by done. done.
Qed.

(** ** Capacity 1 *)

(** C10.  On a channel of capacity 1 every producer call writes slot 0
    and leaves the head cursor at 0; once both cursors are 0, whatever
    sends and drains follow, the cursors stay equal and the parser is
    never invoked: no message is ever delivered. *)
Theorem MCF_capacity_one_never_delivers w p inst buf h t f :
  channel w p inst buf h t -> msgBufSize inst = 1 -> msgParser inst = Some f ->
  is_u16 h ->
  (forall id v, publishes (MCF_send_u16 p id v) w inst 0 (mkMsg id (u16 v))) /\
  (forall id v, publishes (MCF_send_i16 p id v) w inst 0 (mkMsg id (i16 v))) /\
  (forall id v, publishes (MCF_send_u32 p id v) w inst 0 (mkMsg id (u32 v))) /\
  (forall id v, publishes (MCF_send_i32 p id v) w inst 0 (mkMsg id (i32 v))) /\
  (forall id v, publishes (MCF_send_f32 p id v) w inst 0 (mkMsg id (f32 v))) /\
  (h = 0 -> t = 0 ->
   forall cs fuel, exists w' buf',
     exec_calls (S fuel) p cs w = Done (tt, w') /\
     user w' = user w /\ channel w' p inst buf' 0 0).
Proof.
  intros Hch Hsize Hf Hu.
  assert (Hadv : forall h', is_u16 h' -> advance (msgBufSize inst) h' = 0).
  { intros h' Hh'. unfold advance, is_u16 in *. rewrite Hsize.
    destruct (Z.geb_spec h' (1 - 1)); [done|lia]. }
  assert (Hi0 : 0 <= 0 < msgBufSize inst) by lia.
  assert (Hpub : forall pl id, publishes (send_with pl p id) w inst 0 (mkMsg id pl)).
  { intros pl id. eexists. split; [by eapply send_with_Done|].
    rewrite (Hadv h Hu). split.
    - simpl. apply lookup_insert_eq.
    - rewrite (slot_of_after_send _ _ _ _ _ _ _ _ _ Hch Hi0). by case_decide. }
  repeat split; try (intros id v; apply Hpub).
  intros -> -> cs fuel. clear Hpub Hu.
  revert w buf Hch. induction cs as [|[m|] cs IH]; intros w buf Hch.
  - by exists w, buf.
  - simpl.
    rewrite (bind_Done _ _ _ _ _
               (MCF_send_Done _ _ _ _ _ _ m Hch ltac:(unfold is_u16, UINT16_MAX; lia))).
    rewrite Hadv by (unfold is_u16, UINT16_MAX; lia).
    destruct (IH _ _ (channel_after_send _ _ _ _ _ _ 0 m Hch Hi0))
      as (w' & buf' & Hrun & Huser & Hch').
    by exists w', buf'.
  - simpl. rewrite (bind_Done _ _ _ _ _ (MCF_receive_empty _ _ _ _ _ fuel Hch)).
    apply (IH _ _ Hch).
Qed.

(** ** Bursts longer than the capacity *)

Lemma exec_calls_app fuel p cs1 cs2 w :
  exec_calls (U:=U) fuel p (cs1 ++ cs2) w
  = bind (exec_calls fuel p cs1) (fun _ => exec_calls fuel p cs2) w.
Proof.
  revert w. induction cs1 as [|c cs1 IH]; intros w; simpl; [reflexivity|].
  unfold bind at 1 2. unfold bind at 1.
  destruct (exec_call fuel p c w) as [[[] w']| |]; [|done..].
  apply IH.
Qed.

(** A burst of [k] sends always returns; it moves the head [k] places
    round the ring and leaves the last [min k capacity] messages in the
    array, message [i] in the [i]-th slot after the old head. *)
Lemma exec_sends p inst w buf h t msgs fuel :
  channel w p inst buf h t -> 0 <= h < msgBufSize inst ->
  exists w' buf',
    exec_calls fuel p (sends msgs) w = Done (tt, w') /\
    channel w' p inst buf' ((h + Z.of_nat (length msgs)) mod msgBufSize inst) t /\
    user w' = user w /\
    (forall i, (i < length msgs)%nat ->
       Z.of_nat (length msgs) - msgBufSize inst <= Z.of_nat i ->
       buf' !! Z.to_nat (ring_index (msgBufSize inst) h i) = msgs !! i).
Proof.
  intros Hch Hh. pose proof (ch_size _ _ _ _ _ _ Hch) as Hsize.
  induction msgs as [|m msgs IH] using rev_ind.
  - exists w, buf. simpl. rewrite Z.add_0_r, Z.mod_small by lia.
    repeat (split; [done|]). intros i Hi. lia.
  - destruct IH as (w' & buf' & Hrun & Hch' & Huser & Hbuf).
    set (h' := (h + Z.of_nat (length msgs)) mod msgBufSize inst) in *.
    pose proof (Z.mod_pos_bound (h + Z.of_nat (length msgs)) (msgBufSize inst)
                  ltac:(lia)) as Hh'. fold h' in Hh'.
    assert (Hidx : (h' + 1) mod msgBufSize inst
                   = ring_index (msgBufSize inst) h (length msgs)).
    { unfold ring_index, h'. rewrite Zplus_mod_idemp_l. f_equal. lia. }
    pose proof (Z.mod_pos_bound (h' + 1) (msgBufSize inst) ltac:(lia)) as Hi.
    pose proof (ch_len _ _ _ _ _ _ Hch') as Hlen'.
    eexists _, _. split; [|split; [|split]].
    + unfold sends. rewrite map_app, exec_calls_app.
      fold (sends msgs). rewrite (bind_Done _ _ _ _ _ Hrun). simpl.
      assert (Hu' : is_u16 h') by (unfold is_u16; lia).
      rewrite (bind_Done _ _ _ _ _ (MCF_send_Done _ _ _ _ _ _ m Hch' Hu')).
      rewrite advance_mod by lia. done.
    + replace ((h + Z.of_nat (length (msgs ++ [m]))) mod msgBufSize inst)
        with ((h' + 1) mod msgBufSize inst).
      * by apply channel_after_send with h'.
      * unfold h'. rewrite Zplus_mod_idemp_l, length_app. f_equal. simpl. lia.
    + done.
    + intros i Hilt Hige. rewrite length_app in Hilt, Hige. simpl in Hilt, Hige.
      rewrite Hidx. destruct (decide (i = length msgs)) as [->|Hne].
      * rewrite list_lookup_insert_eq.
        -- by rewrite lookup_app_r, Nat.sub_diag.
        -- rewrite <- Hidx. lia.
      * rewrite list_lookup_insert_ne.
        -- rewrite lookup_app_l by lia. apply Hbuf; lia.
        -- intros Heq. apply Z2Nat.inj in Heq; try (apply ring_index_range; lia).
           apply ring_index_inj in Heq; lia.
Qed.

(** C9 (as amended).  Whatever the number [k] of sends made after
    configuration and before any drain, no send fails.  The array then
    holds the last [min k capacity] messages, so only messages older than
    the last [capacity] ones have been overwritten; the head has advanced
    [k] places round the ring, and the next [MCF_receive] hands to the
    parser only the last [k mod capacity] messages, in order, and returns
    with tail equal to head: every earlier message, overwritten or not,
    is never passed to the parser, and nothing reports the loss. *)
Theorem MCF_overflow_loses_messages w0 p hp tp bp size buf0 f msgs fuel :
  storage w0 p hp tp bp size buf0 -> (Z.to_nat size < fuel)%nat ->
  exists w1 buf,
    burst p hp tp bp size f msgs w0 = Done (tt, w1) /\
    channel w1 p (mkMCF bp hp tp size (Some f)) buf (Z.of_nat (length msgs) mod size) 0 /\
    (forall i, (i < length msgs)%nat -> Z.of_nat (length msgs) - size <= Z.of_nat i ->
       buf !! Z.to_nat ((Z.of_nat i + 1) mod size) = msgs !! i) /\
    exists w2,
      MCF_receive fuel p w1 = Done (tt, w2) /\
      user w2
      = deliver f
          (drop (length msgs - Z.to_nat (Z.of_nat (length msgs) mod size)) msgs)
          (user w0) /\
      cursors w2 !! tp = cursors w2 !! hp.
Proof.
  intros Hst Hfuel.
  pose proof (st_sep _ _ _ _ _ _ _ Hst) as Hsep.
  pose proof (st_size _ _ _ _ _ _ _ Hst) as Hsize.
  destruct (st_inst _ _ _ _ _ _ _ Hst) as [inst0 Hinst0].
  set (inst := mkMCF bp hp tp size (Some f)).
  set (w1 := configured p inst (<[hp := 0]> (<[tp := 0]> (cursors w0))) w0).
  assert (Hch : channel w1 p inst buf0 0 0).
  { apply (channel_after_init_RXTX w0 p hp tp bp size buf0);
      [done|done|apply lookup_insert_eq|].
    by rewrite lookup_insert_ne, lookup_insert_eq. }
  destruct (exec_sends p inst w1 buf0 0 0 msgs 0 Hch ltac:(simpl; lia))
    as (w2 & buf & Hrun & Hch2 & Huser & Hbuf).
  simpl msgBufSize in *. rewrite Z.add_0_l in Hch2.
  set (k := length msgs) in *. set (r := Z.of_nat k mod size) in *.
  pose proof (Z.mod_pos_bound (Z.of_nat k) size ltac:(lia)) as Hr. fold r in Hr.
  pose proof (Z.div_mod (Z.of_nat k) size ltac:(lia)) as Hk. fold r in Hk.
  pose proof (Z.mod_le (Z.of_nat k) size ltac:(lia) ltac:(lia)) as Hrk. fold r in Hrk.
  pose proof (ch_len _ _ _ _ _ _ Hch2) as Hlen2. simpl in Hlen2.
  assert (Hslot : forall i, (i < k)%nat -> Z.of_nat k - size <= Z.of_nat i ->
            buf !! Z.to_nat ((Z.of_nat i + 1) mod size) = msgs !! i).
  { intros i Hi1 Hi2. rewrite <- (Hbuf i Hi1 Hi2). unfold ring_index.
    do 3 f_equal. lia. }
  assert (Hpend : drop (k - Z.to_nat r) msgs = pending size buf r 0).
  { apply slots_after_pending; [lia|done| |].
    - rewrite length_drop. fold k. rewrite Z.sub_0_r, Z.mod_small by lia. lia.
    - intros j Hj. rewrite length_drop in Hj. fold k in Hj.
      rewrite lookup_drop. rewrite <- Hslot by lia.
      unfold ring_index. do 2 f_equal.
      replace (Z.of_nat (k - Z.to_nat r + j) + 1)
        with (0 + 1 + Z.of_nat j + (Z.of_nat k / size) * size) by lia.
      by rewrite Z_mod_plus_full. }
  destruct (MCF_receive_Done _ _ _ _ _ _ f fuel Hch2 eq_refl
              ltac:(simpl; lia) ltac:(simpl; lia)) as (buf' & Hlen' & Hrecv).
  { simpl msgBufSize. rewrite <- Hpend, length_drop. fold k. lia. }
  simpl msgBufSize in Hrecv. rewrite <- Hpend, Huser in Hrecv.
  exists w2, buf. split; [|split; [done|split; [done|]]].
  - unfold burst.
    by rewrite (bind_Done _ _ _ _ _ (MCF_init_RXTX_Done _ _ _ _ _ _ _ _ f Hst Hinst0)).
  - eexists. split; [exact Hrecv|]. split; [done|].
    pose proof (channel_after_drain _ _ _ _ buf' _ _
                  (deliver f (drop (k - Z.to_nat r) msgs) (user w1)) Hch2 Hlen') as Hch3.
    destruct Hch3. simpl in *. congruence.
Qed.

(** ** Remarks on the model *)

(** The encoding [f32_3_5] denotes 7/2. *)
Lemma f32_3_5_value : float32_to_Q f32_3_5 = Some (7 # 2)%Q.
Proof. vm_compute. reflexivity. Qed.


(** ** When the calls fail *)



Lemma load_MCF_Fault w p : ~ valid_MCF w p -> load_MCF p w = Fault.
Proof.
  unfold valid_MCF, load_MCF. intros Hn.
  destruct (decide (p = NULL)) as [->|Hp]; [done|].
  rewrite (is_null_false _ Hp).
  destruct (instances w !! p) eqn:E; [|done]. destruct Hn. eauto.
Qed.


Lemma init_asserts_false p hp tp bp size :
  ~ (p <> NULL /\ hp <> NULL /\ tp <> NULL /\ bp <> NULL /\ 0 < size) ->
  negb (is_null p) && negb (is_null hp) && negb (is_null tp) && negb (is_null bp)
  && (0 <? size) = false.
Proof.
  intros Hn. apply not_true_is_false. intros Ht.
  repeat (apply andb_prop in Ht as [Ht ?]).
  apply Hn. repeat split;
    try (intros ->; discriminate); by apply Z.ltb_lt.
Qed.








(** X3.  [MCF_receive] on an instance without a parser (as after a
    transmit-only configuration of a fresh instance) returns when the
    channel is empty and fails, on the call through the null pointer, as
    soon as a message is pending. *)
Theorem MCF_receive_without_parser w p inst buf h t :
  channel w p inst buf h t -> msgParser inst = None ->
  (h = t -> forall fuel, MCF_receive (S fuel) p w = Done (tt, w)) /\
  (h <> t -> forall fuel, MCF_receive (S fuel) p w = Fault).
Proof.
  intros Hch Hf. split.
  - intros <- fuel. by eapply MCF_receive_empty.
  - intros Hne fuel.
    destruct (Hch) as [Hp Hinst Hhp Htp _ _ Hhead Htail _ _ _].
    rewrite MCF_receive_is_loop by done. simpl.
    rewrite (bind_Done _ _ _ _ _ (load_MCF_Done _ _ _ Hp Hinst)).
    rewrite (bind_Done _ _ _ _ _ (load_u16_Done _ _ _ Hhp Hhead)).
    rewrite (bind_Done _ _ _ _ _ (load_u16_Done _ _ _ Htp Htail)).
    destruct (Z.eqb_spec h t) as [|_]; [done|]. simpl.
    rewrite (bind_Done _ _ _ _ _ (load_u16_Done _ _ _ Htp Htail)).
    rewrite (bind_Done _ _ _ _ _ (store_u16_Done _ _ _ _ Htp Htail)).
    erewrite bind_Done; cycle 1.
    { apply load_u16_Done; [done|]. simpl. apply lookup_insert_eq. }
    rewrite Hf.
    destruct (Z.geb_spec (wrap_u16 (t + 1)) (msgBufSize inst)).
    + erewrite bind_Done; cycle 1.
      { eapply store_u16_Done; [done|]. simpl. apply lookup_insert_eq. }
      erewrite bind_Done; cycle 1.
      { apply load_u16_Done; [done|]. simpl. apply lookup_insert_eq. }
      done.
    + rewrite bind_ret.
      erewrite bind_Done; cycle 1.
      { apply load_u16_Done; [done|]. simpl. apply lookup_insert_eq. }
      done.
Qed.

(** ** Cursors outside the array *)

(** X4.  A producer call repairs a head cursor that holds anything at or
    beyond the last index: it writes slot 0 and stores 0, so whatever
    16-bit value the head cursor held the call returns, the write lands
    inside the array and the head cursor ends in range. *)
Theorem MCF_send_repairs_head w p inst buf h t m :
  channel w p inst buf h t -> is_u16 h ->
  exists w' h',
    MCF_send p m w = Done (tt, w') /\
    cursors w' !! head inst = Some h' /\ 0 <= h' < msgBufSize inst /\
    slot_of w' (msgBuf inst) h' = Some m /\
    (msgBufSize inst - 1 <= h -> h' = 0).
Proof.
  intros Hch Hh. pose proof (ch_size _ _ _ _ _ _ Hch) as Hsize.
  pose proof (advance_range (msgBufSize inst) h ltac:(lia) Hh) as Hi.
  exists (after_send inst buf (advance (msgBufSize inst) h) m w),
         (advance (msgBufSize inst) h).
  split; [by apply MCF_send_Done with t|].
  split; [simpl; apply lookup_insert_eq|]. split; [done|]. split.
  - rewrite (slot_of_after_send _ _ _ _ _ _ _ _ _ Hch Hi). by case_decide.
  - intros Hge. unfold advance. destruct (Z.geb_spec h (msgBufSize inst - 1)); [done|lia].
Qed.

(** X5.  With the head cursor in range and the tail cursor holding a
    16-bit value at or beyond the capacity, [MCF_receive] first resets
    the tail to 0 and hands slot 0 to the parser, then goes on to the
    head: the parser sees slots 0 to head, in order, and the call returns
    with tail equal to head. *)
Theorem MCF_receive_repairs_tail w p inst buf h t f fuel :
  channel w p inst buf h t -> msgParser inst = Some f ->
  0 <= h < msgBufSize inst -> msgBufSize inst <= t -> is_u16 t ->
  (Z.to_nat (msgBufSize inst) < fuel)%nat ->
  exists w', MCF_receive fuel p w = Done (tt, w') /\
    user w' = deliver f (take (Z.to_nat (h + 1)) buf) (user w) /\
    cursors w' !! tail inst = Some h /\ cursors w' !! head inst = Some h.
Proof.
  intros Hch Hf Hh Ht Hu Hfuel.
  pose proof (ch_size _ _ _ _ _ _ Hch) as Hsize.
  pose proof (ch_len _ _ _ _ _ _ Hch) as Hlen.
  pose proof (ch_ptr _ _ _ _ _ _ Hch) as Hp.
  destruct fuel as [|fuel]; [lia|].
  assert (Hadv : advance_tail (msgBufSize inst) t = 0).
  { unfold advance_tail, wrap_u16, is_u16, UINT16_MAX in *.
    destruct (Z.eq_dec t 65535) as [->|Hne].
    - change ((65535 + 1) mod 65536) with 0.
      destruct (Z.geb_spec 0 (msgBufSize inst)); [done|done].
    - rewrite Z.mod_small by lia.
      destruct (Z.geb_spec (t + 1) (msgBufSize inst)); [done|lia]. }
  destruct (lookup_lt_is_Some_2 buf (Z.to_nat 0) ltac:(lia)) as [m0 Hm0].
  rewrite MCF_receive_is_loop by done.
  rewrite <- Hadv in Hm0.
  rewrite (receive_loop_iter _ _ _ _ _ _ _ _ _ Hch ltac:(lia) Hf Hm0).
  rewrite Hadv in *.
  assert (Hi : 0 <= 0 < msgBufSize inst) by lia.
  pose proof (channel_after_parse _ _ _ _ _ _ _ f m0 Hch Hi) as Hch1.
  set (buf1 := <[Z.to_nat 0 := (f m0 (user w)).1]> buf) in *.
  assert (Hlen1 : msgBufSize inst <= Z.of_nat (length buf1)).
  { unfold buf1. by rewrite length_insert. }
  rewrite <- MCF_receive_is_loop by done.
  destruct (MCF_receive_Done _ _ _ _ _ _ _ fuel Hch1 Hf Hh Hi) as (buf' & Hlen' & Hrun).
  { apply Nat2Z.inj_lt. rewrite pending_length by lia.
    pose proof (Z.mod_pos_bound (h - 0) (msgBufSize inst) ltac:(lia)). lia. }
  eexists. split; [exact Hrun|].
  pose proof (channel_after_drain _ _ _ _ buf' _ _
    (deliver f (pending (msgBufSize inst) buf1 h 0) (user (after_parse inst buf 0 f m0 w)))
    Hch1 Hlen') as Hch2.
  split; [|by destruct Hch2].
  simpl.
  change (deliver f (pending (msgBufSize inst) buf1 h 0) (f m0 (user w)).2)
    with (deliver f (m0 :: pending (msgBufSize inst) buf1 h 0) (user w)).
  f_equal.
  pose proof (pending_length (msgBufSize inst) buf1 h 0 ltac:(lia) Hlen1) as Hpl.
  rewrite Z.sub_0_r, Z.mod_small in Hpl by lia.
  pose proof (read_ring_slots (msgBufSize inst) buf1 0
                (Z.to_nat ((h - 0) mod msgBufSize inst)) ltac:(lia) Hlen1) as Hslots.
  fold (pending (msgBufSize inst) buf1 h 0) in Hslots.
  apply list_eq. intros [|k]; simpl.
  - rewrite lookup_take_lt by lia. done.
  - destruct (decide (k < length (pending (msgBufSize inst) buf1 h 0))%nat) as [Hk|Hk].
    + rewrite <- (Hslots k Hk). unfold ring_index.
      rewrite Z.mod_small by lia.
      rewrite lookup_take_lt by lia.
      replace (Z.to_nat (0 + 1 + Z.of_nat k)) with (S k) by lia.
      unfold buf1. by rewrite list_lookup_insert_ne.
    + rewrite lookup_ge_None_2 by lia. rewrite lookup_take_ge by lia. done.
Qed.

(** ** The frame of a drain *)

(** A drain writes the tail cursor and, through the parser, the slots it
    visits and the consumer's state; every other slot is as before, and
    with a parser that leaves its slot alone so is the whole array. *)
Lemma receive_loop_drain_frame p inst f h msgs :
  forall w buf t fuel,
    channel w p inst buf h t -> msgParser inst = Some f ->
    0 <= h < msgBufSize inst -> 0 <= t < msgBufSize inst ->
    Z.of_nat (length msgs) = (h - t) mod msgBufSize inst ->
    slots_after (msgBufSize inst) t buf msgs ->
    (length msgs < fuel)%nat ->
    exists buf', length buf' = length buf /\
      MCF_receive_loop fuel p w
      = Done (tt, after_drain inst buf' h (deliver f msgs (user w)) w) /\
      (forall j, (forall k, (k < length msgs)%nat ->
                    j <> Z.to_nat (ring_index (msgBufSize inst) t k)) ->
         buf' !! j = buf !! j) /\
      ((forall m u, fst (f m u) = m) -> buf' = buf).
Proof.
  induction msgs as [|m rest IH]; intros w buf t fuel Hch Hf Hh Ht Hlen Hslots Hfuel.
  - destruct fuel as [|fuel]; [simpl in Hfuel; lia|].
    simpl in Hlen. symmetry in Hlen. apply distance_0 in Hlen; [|done..]. subst t.
    exists buf. split; [done|]. split; [|done].
    rewrite (receive_loop_exit _ _ _ _ _ _ Hch). simpl.
    by rewrite (after_drain_id _ _ _ _ _ Hch).
  - destruct fuel as [|fuel]; [simpl in Hfuel; lia|].
    pose proof (ch_size _ _ _ _ _ _ Hch) as Hsize.
    assert (Hne : h <> t).
    { intros ->. rewrite Z.sub_diag, Z.mod_0_l in Hlen by lia. simpl in Hlen. lia. }
    assert (Hd : Z.of_nat (length (m :: rest)) < msgBufSize inst).
    { rewrite Hlen. apply Z.mod_pos_bound. lia. }
    pose proof (Hslots 0%nat ltac:(simpl; lia)) as Hm.
    rewrite ring_index_0, <- advance_tail_mod in Hm by lia. simpl in Hm.
    rewrite (receive_loop_iter _ _ _ _ _ _ _ _ _ Hch Hne Hf Hm).
    rewrite advance_tail_mod in * by lia.
    pose proof (Z.mod_pos_bound (t + 1) (msgBufSize inst) ltac:(lia)) as Ht'.
    destruct (IH _ _ _ fuel (channel_after_parse _ _ _ _ _ _ _ f m Hch Ht') Hf Hh Ht')
      as (buf' & Hlen' & Hrun & Hother & Hsame).
    + rewrite distance_step by done. simpl in Hlen. lia.
    + intros k Hk. rewrite ring_index_S.
      rewrite list_lookup_insert_ne.
      * apply (Hslots (S k)). simpl. lia.
      * rewrite <- ring_index_0. intros Heq.
        apply Z2Nat.inj in Heq; try (apply ring_index_range; lia).
        simpl in Hd. apply ring_index_inj in Heq; lia.
    + simpl in Hfuel. lia.
    + exists buf'. split; [by rewrite Hlen', length_insert|].
      split; [by rewrite Hrun, after_drain_after_parse|]. split.
      * intros j Hj. rewrite Hother.
        -- apply list_lookup_insert_ne. rewrite <- ring_index_0.
           intros Heq. apply (Hj 0%nat); [simpl; lia|done].
        -- intros k Hk. rewrite ring_index_S. apply Hj. simpl. lia.
      * intros Hro. rewrite (Hsame Hro), Hro. by apply list_insert_id.
Qed.

(** X7.  On a well-formed channel with both cursors in range,
    [MCF_receive] writes only the tail cursor, the consumer's state and,
    through the parser, the slots between the cursors: the instances, the
    head cursor, every other cursor and array, and every slot of the
    array outside the pending ones are unchanged; if the parser leaves
    its slot as it found it, the array is unchanged. *)
Theorem MCF_receive_writes_only_tail w p inst buf h t f fuel :
  channel w p inst buf h t -> msgParser inst = Some f ->
  0 <= h < msgBufSize inst -> 0 <= t < msgBufSize inst ->
  (length (pending (msgBufSize inst) buf h t) < fuel)%nat ->
  exists w' buf',
    MCF_receive fuel p w = Done (tt, w') /\
    instances w' = instances w /\
    (forall q, q <> tail inst -> cursors w' !! q = cursors w !! q) /\
    (forall b, b <> msgBuf inst -> buffers w' !! b = buffers w !! b) /\
    buffers w' !! msgBuf inst = Some buf' /\ length buf' = length buf /\
    (forall j, (forall k, (k < length (pending (msgBufSize inst) buf h t))%nat ->
                  j <> Z.to_nat (ring_index (msgBufSize inst) t k)) ->
       buf' !! j = buf !! j) /\
    ((forall m u, fst (f m u) = m) -> buf' = buf).
Proof.
  intros Hch Hf Hh Ht Hfuel. destruct (Hch) as [].
  destruct (receive_loop_drain_frame p inst f h (pending (msgBufSize inst) buf h t)
              w buf t fuel Hch Hf Hh Ht) as (buf' & Hlen' & Hrun & Hother & Hsame).
  { apply pending_length; lia. }
  { apply read_ring_slots; lia. }
  { done. }
  eexists _, buf'. split; [by rewrite MCF_receive_is_loop|]. simpl.
  split; [done|]. split; [by intros q Hq; rewrite lookup_insert_ne|].
  split; [by intros b Hb; rewrite lookup_insert_ne|].
  split; [apply lookup_insert_eq|]. done.
Qed.

(** X8.  Draining twice is draining once: after [MCF_receive] has
    returned, a second call finds head equal to tail and returns without
    invoking the parser or changing the store. *)
Theorem MCF_receive_twice w p inst buf h t f fuel :
  channel w p inst buf h t -> msgParser inst = Some f ->
  0 <= h < msgBufSize inst -> 0 <= t < msgBufSize inst ->
  (length (pending (msgBufSize inst) buf h t) < fuel)%nat ->
  exists w', MCF_receive fuel p w = Done (tt, w') /\
    MCF_receive fuel p w' = Done (tt, w').
Proof.
  intros Hch Hf Hh Ht Hfuel.
  destruct (MCF_receive_Done _ _ _ _ _ _ _ _ Hch Hf Hh Ht Hfuel) as (buf' & Hlen' & Hrun).
  eexists. split; [exact Hrun|].
  destruct fuel as [|fuel]; [lia|].
  eapply MCF_receive_empty. by eapply channel_after_drain.
Qed.

(** X9.  A send on a full channel ([capacity - 1] messages pending)
    moves the head onto the tail: the channel now reads as empty, and the
    next [MCF_receive] returns without invoking the parser, so the whole
    backlog and the new message go undelivered. *)
Theorem MCF_send_on_full_channel_empties_it w p inst buf h t m :
  channel w p inst buf h t ->
  0 <= h < msgBufSize inst -> 0 <= t < msgBufSize inst ->
  (h - t) mod msgBufSize inst = msgBufSize inst - 1 ->
  exists w', MCF_send p m w = Done (tt, w') /\
    cursors w' !! head inst = Some t /\ cursors w' !! tail inst = Some t /\
    forall fuel, MCF_receive (S fuel) p w' = Done (tt, w').
Proof.
  intros Hch Hh Ht Hfull. pose proof (ch_size _ _ _ _ _ _ Hch) as Hsize.
  assert (Hu : is_u16 h) by (unfold is_u16; lia).
  assert (Hadv : advance (msgBufSize inst) h = t).
  { rewrite advance_mod by lia. revert Hfull.
    rewrite (mod_cases (h - t)), (mod_cases (h + 1)) by lia.
    repeat match goal with |- context [?a <? ?b] => destruct (Z.ltb_spec a b) end; lia. }
  pose proof (channel_after_send _ _ _ _ _ _ t m Hch Ht) as Hch'.
  exists (after_send inst buf t m w).
  split; [by rewrite (MCF_send_Done _ _ _ _ _ _ m Hch Hu), Hadv|].
  split; [by destruct Hch'|]. split; [by destruct Hch'|].
  intros fuel. by eapply MCF_receive_empty.
Qed.

(** ** Several instances *)

(** A second instance wired to the same cursors and array sees the same channel. *)
Lemma channel_peer w p inst buf h t p' inst' :
  channel w p inst buf h t -> p' <> NULL -> instances w !! p' = Some inst' ->
  head inst' = head inst -> tail inst' = tail inst ->
  msgBuf inst' = msgBuf inst -> msgBufSize inst' = msgBufSize inst ->
  channel w p' inst' buf h t.
Proof.
  intros [] Hp' Hinst' Hh Ht Hb Hs. constructor; rewrite ?Hh, ?Ht, ?Hb, ?Hs; done.
Qed.


(** Sends alone need no parser; they keep the channel well formed and
    touch only its head cursor and its array. *)
Lemma exec_sends_frame p inst t fuel msgs :
  forall w buf h,
    channel w p inst buf h t -> 0 <= h < msgBufSize inst ->
    exists w' buf' h',
      exec_calls fuel p (sends msgs) w = Done (tt, w') /\
      channel w' p inst buf' h' t /\ 0 <= h' < msgBufSize inst /\
      instances w' = instances w /\ user w' = user w /\
      (forall q, q <> head inst -> cursors w' !! q = cursors w !! q) /\
      (forall b, b <> msgBuf inst -> buffers w' !! b = buffers w !! b).
Proof.
  induction msgs as [|m msgs IH]; intros w buf h Hch Hh.
  - exists w, buf, h. simpl. by repeat (split; [done|]).
  - pose proof (ch_size _ _ _ _ _ _ Hch) as Hsize.
    assert (Hu : is_u16 h) by (unfold is_u16; lia).
    pose proof (advance_range (msgBufSize inst) h ltac:(lia) Hu) as Hi.
    destruct (IH _ _ _ (channel_after_send _ _ _ _ _ _ _ m Hch Hi) Hi)
      as (w' & buf' & h' & Hrun & Hch' & Hh' & Hinsts & Huser & Hcur & Hbuf).
    exists w', buf', h'. split; [|split; [done|split; [done|]]].
    + simpl. by rewrite (bind_Done _ _ _ _ _ (MCF_send_Done _ _ _ _ _ _ m Hch Hu)).
    + split; [done|]. split; [done|]. split.
      * intros q Hq. rewrite Hcur by done. simpl. by rewrite lookup_insert_ne.
      * intros b Hb. rewrite Hbuf by done. simpl. by rewrite lookup_insert_ne.
Qed.



(** ** A transmitter and a receiver on shared storage *)

Lemma after_send_peer inst inst' buf i m w :
  head inst' = head inst -> msgBuf inst' = msgBuf inst ->
  after_send inst' buf i m w = after_send inst buf i m w.
Proof. unfold after_send. by intros -> ->. Qed.

(** Sends through one instance and drains through another, wired to the
    same cursors and array, refine the FIFO queue. *)
Lemma exec_pair_fifo pT pR instT instR f fuel :
  msgParser instR = Some f -> (Z.to_nat (msgBufSize instR) < fuel)%nat ->
  pT <> NULL ->
  head instT = head instR -> tail instT = tail instR ->
  msgBuf instT = msgBuf instR -> msgBufSize instT = msgBufSize instR ->
  forall cs w buf h t q,
    channel w pR instR buf h t -> instances w !! pT = Some instT ->
    0 <= h < msgBufSize instR -> 0 <= t < msgBufSize instR ->
    Z.of_nat (length q) = (h - t) mod msgBufSize instR ->
    slots_after (msgBufSize instR) t buf q ->
    within_capacity (msgBufSize instR - 1) cs (Z.of_nat (length q)) = true ->
    exists w' buf' h' t',
      exec_pair fuel pT pR cs w = Done (tt, w') /\
      channel w' pR instR buf' h' t' /\
      user w' = snd (fifo f cs q (user w)) /\
      pending (msgBufSize instR) buf' h' t' = fst (fifo f cs q (user w)).
Proof.
  intros Hf Hfuel HpT Hwh Hwt Hwb Hws.
  induction cs as [|[m|] cs IH]; intros w buf h t q Hch HiT Hh Ht Hq Hslots Hcap.
  - exists w, buf, h, t. simpl. repeat (split; [done|]).
    symmetry. apply slots_after_pending; try done.
    + pose proof (ch_size _ _ _ _ _ _ Hch). lia.
    + exact (ch_len _ _ _ _ _ _ Hch).
  - simpl in Hcap. apply andb_prop in Hcap as [Hone Hcap]. apply Z.leb_le in Hone.
    pose proof (ch_size _ _ _ _ _ _ Hch) as Hsize.
    pose proof (ch_len _ _ _ _ _ _ Hch) as Hlen.
    assert (Hu : is_u16 h) by (unfold is_u16; lia).
    pose proof (channel_peer _ _ _ _ _ _ pT instT Hch HpT HiT Hwh Hwt Hwb Hws) as HchT.
    simpl. rewrite (bind_Done _ _ _ _ _ (MCF_send_Done _ _ _ _ _ _ m HchT Hu)).
    rewrite Hws, (after_send_peer instR instT) by done.
    rewrite advance_mod by lia.
    pose proof (Z.mod_pos_bound (h + 1) (msgBufSize instR) ltac:(lia)) as Hi.
    destruct (slots_after_snoc (msgBufSize instR) buf h t q m
                ltac:(lia) Hlen Hh Ht Hq ltac:(lia) Hslots)
      as [Hq' Hslots'].
    apply (IH _ _ _ _ _ (channel_after_send _ _ _ _ _ _ _ m Hch Hi) HiT Hi Ht Hq' Hslots').
    rewrite length_app, Nat2Z.inj_add. exact Hcap.
  - simpl in Hcap.
    pose proof (ch_size _ _ _ _ _ _ Hch) as Hsize.
    pose proof (ch_len _ _ _ _ _ _ Hch) as Hlen.
    pose proof (slots_after_pending (msgBufSize instR) buf h t q
                  ltac:(lia) Hlen Hq Hslots) as Hqp.
    destruct (MCF_receive_Done _ _ _ _ _ _ _ fuel Hch Hf Hh Ht) as (buf' & Hlen' & Hrun).
    { apply Nat2Z.inj_lt. rewrite <- Hqp, Hq.
      pose proof (Z.mod_pos_bound (h - t) (msgBufSize instR) ltac:(lia)). lia. }
    rewrite <- Hqp in Hrun. simpl. rewrite (bind_Done _ _ _ _ _ Hrun).
    apply (IH _ _ _ _ [] (channel_after_drain _ _ _ _ buf' _ _ _ Hch Hlen') HiT Hh Hh).
    + by rewrite Z.sub_diag, Z.mod_0_l by lia.
    + intros k Hk. simpl in Hk. lia.
    + exact Hcap.
Qed.

Lemma storage_configured w p hp tp bp size buf p' inst' curs :
  storage w p hp tp bp size buf ->
  is_Some (curs !! hp) -> is_Some (curs !! tp) ->
  storage (configured p' inst' curs w) p hp tp bp size buf.
Proof.
  intros [] Hh Ht. constructor; simpl; try done.
  destruct (decide (p' = p)) as [->|Hne].
  - rewrite lookup_insert_eq. eauto.
  - by rewrite lookup_insert_ne.
Qed.

Lemma within_capacity_sends_inv cap msgs cs n :
  within_capacity cap (sends msgs ++ cs) n = true ->
  (msgs <> [] -> n + Z.of_nat (length msgs) <= cap) /\
  within_capacity cap cs (n + Z.of_nat (length msgs)) = true.
Proof.
  revert n. induction msgs as [|m msgs IH]; intros n Hcap; simpl in *.
  - rewrite Z.add_0_r. by split.
  - apply andb_prop in Hcap as [Hone Hcap]. apply Z.leb_le in Hone.
    destruct (IH _ Hcap) as [Hle Hrest].
    replace (n + Z.of_nat (S (length msgs)))
      with (n + 1 + Z.of_nat (length msgs)) by lia.
    split; [|done]. intros _. destruct msgs as [|m' msgs']; [simpl; lia|].
    apply Hle. done.
Qed.

(** X10.  A transmitter and a receiver with an instance each, configured
    on the same cursors and array, form a FIFO channel.  The transmitter
    may be configured and send up to [capacity - 1] messages before the
    receiver is configured: they are delivered first.  The receiver may
    also be configured first.  In both cases every later sequence of
    sends through the one and drains through the other that keeps at most
    [capacity - 1] messages pending delivers each message once, in the
    order sent. *)
Theorem MCF_pair_delivers_in_fifo_order w0 pT pR hp tp bp size buf0 f fuel msgs cs :
  storage w0 pT hp tp bp size buf0 -> storage w0 pR hp tp bp size buf0 ->
  pT <> pR -> (Z.to_nat size < fuel)%nat ->
  within_capacity (size - 1) (sends msgs ++ cs) 0 = true ->
  (exists w',
     session_tx_first fuel pT pR hp tp bp size f msgs cs w0 = Done (tt, w') /\
     user w' = snd (fifo f (sends msgs ++ cs) [] (user w0))) /\
  (exists w',
     session_rx_first fuel pT pR hp tp bp size f (sends msgs ++ cs) w0 = Done (tt, w') /\
     user w' = snd (fifo f (sends msgs ++ cs) [] (user w0))).
Proof.
  intros HsT HsR Hne Hfuel Hcap.
  pose proof (st_sep _ _ _ _ _ _ _ HsT) as Hsep.
  pose proof (st_size _ _ _ _ _ _ _ HsT) as Hsize.
  pose proof (st_len _ _ _ _ _ _ _ HsT) as Hlen.
  pose proof (st_ptr _ _ _ _ _ _ _ HsT) as HpT.
  pose proof (st_ptr _ _ _ _ _ _ _ HsR) as HpR.
  destruct (st_inst _ _ _ _ _ _ _ HsT) as [instT0 HiT0].
  destruct (st_inst _ _ _ _ _ _ _ HsR) as [instR0 HiR0].
  destruct (st_head _ _ _ _ _ _ _ HsT) as [h0 Hh0].
  destruct (st_tail _ _ _ _ _ _ _ HsT) as [t0 Ht0].
  set (instT := mkMCF bp hp tp size (msgParser instT0)).
  set (instR := mkMCF bp hp tp size (Some f)).
  split.
  - (* transmitter first *)
    set (w1 := configured pT instT (<[hp := 0]> (cursors w0)) w0).
    assert (Hch1 : channel w1 pT instT buf0 0 t0).
    { destruct HsT. constructor; simpl; try done.
      - apply lookup_insert_eq.
      - apply lookup_insert_eq.
      - by rewrite lookup_insert_ne. }
    destruct (exec_sends pT instT w1 buf0 0 t0 msgs 0%nat Hch1 ltac:(simpl; lia))
      as (w2 & buf2 & Hrun2 & Hch2 & Huser2 & Hbuf2).
    destruct (exec_sends_frame pT instT t0 0%nat msgs w1 buf0 0 Hch1 ltac:(simpl; lia))
      as (w2' & buf2' & h2' & Hrun2' & _ & _ & Hinsts2 & _ & _ & _).
    rewrite Hrun2 in Hrun2'. injection Hrun2' as <-.
    simpl msgBufSize in *. rewrite Z.add_0_l in Hch2.
    destruct (within_capacity_sends_inv _ _ _ _ Hcap) as [Hk Hcap'].
    rewrite Z.add_0_l in Hk, Hcap'.
    assert (Hk' : Z.of_nat (length msgs) < size).
    { destruct msgs as [|m msgs']; [simpl; lia|]. specialize (Hk ltac:(done)). lia. }
    rewrite Z.mod_small in Hch2 by lia.
    assert (HiR2 : instances w2 !! pR = Some instR0).
    { rewrite Hinsts2. simpl. by rewrite lookup_insert_ne. }
    assert (HsR2 : storage w2 pR hp tp bp size buf2).
    { destruct HsR, Hch2. constructor; simpl in *; try done; eauto. }
    set (w3 := configured pR instR (<[tp := 0]> (cursors w2)) w2).
    assert (Hch3 : channel w3 pR instR buf2 (Z.of_nat (length msgs)) 0).
    { destruct HsR, Hch2. constructor; simpl in *; try done.
      - apply lookup_insert_eq.
      - by rewrite lookup_insert_ne.
      - apply lookup_insert_eq. }
    assert (HiT3 : instances w3 !! pT = Some instT).
    { simpl. rewrite lookup_insert_ne by done. by destruct Hch2. }
    destruct (exec_pair_fifo pT pR instT instR f fuel eq_refl Hfuel HpT
                eq_refl eq_refl eq_refl eq_refl cs w3 buf2 (Z.of_nat (length msgs)) 0 msgs
                Hch3 HiT3)
      as (w4 & buf4 & h4 & t4 & Hrun4 & _ & Huser4 & _); simpl msgBufSize; try lia.
    { rewrite Z.sub_0_r, Z.mod_small; lia. }
    { intros i Hi. apply Hbuf2; [done|lia]. }
    { done. }
    exists w4. split.
    + unfold session_tx_first.
      rewrite (bind_Done _ _ _ _ _ (MCF_init_TX_Done _ _ _ _ _ _ _ _ HsT HiT0)).
      fold instT w1. rewrite (bind_Done _ _ _ _ _ Hrun2).
      rewrite (bind_Done _ _ _ _ _ (MCF_init_RX_Done _ _ _ _ _ _ _ _ f HsR2 HiR2)).
      exact Hrun4.
    + rewrite Huser4, fifo_sends. simpl. by rewrite Huser2.
  - (* receiver first *)
    set (w1 := configured pR instR (<[tp := 0]> (cursors w0)) w0).
    assert (HsT1 : storage w1 pT hp tp bp size buf0).
    { apply storage_configured; [done| |].
      - rewrite lookup_insert_ne by done. eauto.
      - rewrite lookup_insert_eq. eauto. }
    assert (HiT1 : instances w1 !! pT = Some instT0).
    { simpl. by rewrite lookup_insert_ne. }
    set (w2 := configured pT instT (<[hp := 0]> (cursors w1)) w1).
    assert (Hch2 : channel w2 pR instR buf0 0 0).
    { destruct HsR. constructor; simpl; try done.
      - rewrite lookup_insert_ne by done. apply lookup_insert_eq.
      - apply lookup_insert_eq.
      - rewrite lookup_insert_ne by done. apply lookup_insert_eq. }
    assert (HiT2 : instances w2 !! pT = Some instT).
    { simpl. apply lookup_insert_eq. }
    destruct (exec_pair_fifo pT pR instT instR f fuel eq_refl Hfuel HpT
                eq_refl eq_refl eq_refl eq_refl (sends msgs ++ cs) w2 buf0 0 0 []
                Hch2 HiT2)
      as (w3 & buf3 & h3 & t3 & Hrun3 & _ & Huser3 & _); simpl msgBufSize; try lia.
    { done. }
    { intros i Hi. simpl in Hi. lia. }
    { done. }
    exists w3. split; [|done].
    unfold session_rx_first.
    rewrite (bind_Done _ _ _ _ _ (MCF_init_RX_Done _ _ _ _ _ _ _ _ f HsR HiR0)).
    fold instR w1.
    rewrite (bind_Done _ _ _ _ _ (MCF_init_TX_Done _ _ _ _ _ _ _ _ HsT1 HiT1)).
    exact Hrun3.
Qed.

(** ** Configuring again *)

(** X11.  On one instance the combined configuration does what the
    transmit and the receive configurations do one after the other, in
    either order: the same calls return and the final stores are equal. *)
Theorem MCF_init_RXTX_is_TX_and_RX w p hp tp bp size buf f :
  storage w p hp tp bp size buf ->
  (exists w', MCF_init_RXTX p hp tp bp size (Some f) w = Done (tt, w')) /\
  (let* _ := MCF_init_TX p hp tp bp size in MCF_init_RX p hp tp bp size (Some f)) w
  = MCF_init_RXTX p hp tp bp size (Some f) w /\
  (let* _ := MCF_init_RX p hp tp bp size (Some f) in MCF_init_TX p hp tp bp size) w
  = MCF_init_RXTX p hp tp bp size (Some f) w.
Proof.
  intros Hst.
  pose proof (st_sep _ _ _ _ _ _ _ Hst) as Hsep.
  destruct (st_inst _ _ _ _ _ _ _ Hst) as [inst0 Hinst0].
  destruct (st_head _ _ _ _ _ _ _ Hst) as [h0 Hh0].
  destruct (st_tail _ _ _ _ _ _ _ Hst) as [t0 Ht0].
  rewrite (MCF_init_RXTX_Done _ _ _ _ _ _ _ _ f Hst Hinst0).
  split; [eauto|]. split.
  - rewrite (bind_Done _ _ _ _ _ (MCF_init_TX_Done _ _ _ _ _ _ _ _ Hst Hinst0)).
    erewrite MCF_init_RX_Done; cycle 1.
    { apply storage_configured; [done| |].
      - rewrite lookup_insert_eq. eauto.
      - rewrite lookup_insert_ne by done. eauto. }
    { simpl. apply lookup_insert_eq. }
    unfold configured, set_cursors, set_instances. simpl.
    by rewrite insert_insert_eq, (insert_insert_ne _ hp tp).
  - rewrite (bind_Done _ _ _ _ _ (MCF_init_RX_Done _ _ _ _ _ _ _ _ f Hst Hinst0)).
    erewrite MCF_init_TX_Done; cycle 1.
    { apply storage_configured; [done| |].
      - rewrite lookup_insert_ne by done. eauto.
      - rewrite lookup_insert_eq. eauto. }
    { simpl. apply lookup_insert_eq. }
    unfold configured, set_cursors, set_instances. simpl.
    by rewrite insert_insert_eq.
Qed.

Lemma channel_storage w p inst buf h t :
  channel w p inst buf h t ->
  storage w p (head inst) (tail inst) (msgBuf inst) (msgBufSize inst) buf.
Proof. intros []. constructor; eauto. Qed.

(** X12.  A configuration call on a live channel resets one cursor and
    keeps the other, so it does not empty the channel.  After
    [MCF_init_TX] the slots from the tail round to slot 0 are pending,
    [capacity - tail] of them when the tail is not 0, even if the channel
    was empty; after [MCF_init_RX] slots 1 to head are pending.  The next
    [MCF_receive] hands these slots to the parser. *)
Theorem MCF_init_on_live_channel_replays_slots w p inst buf h t f fuel :
  channel w p inst buf h t -> msgParser inst = Some f ->
  0 <= h < msgBufSize inst -> 0 <= t < msgBufSize inst ->
  (Z.to_nat (msgBufSize inst) < fuel)%nat ->
  (exists w',
     (let* _ := MCF_init_TX p (head inst) (tail inst) (msgBuf inst) (msgBufSize inst) in
      MCF_receive fuel p) w = Done (tt, w') /\
     user w' = deliver f (pending (msgBufSize inst) buf 0 t) (user w) /\
     Z.of_nat (length (pending (msgBufSize inst) buf 0 t))
     = (if decide (t = 0) then 0 else msgBufSize inst - t)) /\
  (exists w',
     (let* _ := MCF_init_RX p (head inst) (tail inst) (msgBuf inst) (msgBufSize inst)
                  (Some f) in
      MCF_receive fuel p) w = Done (tt, w') /\
     user w' = deliver f (pending (msgBufSize inst) buf h 0) (user w) /\
     Z.of_nat (length (pending (msgBufSize inst) buf h 0)) = h).
Proof.
  intros Hch Hf Hh Ht Hfuel.
  pose proof (channel_storage _ _ _ _ _ _ Hch) as Hst.
  pose proof (ch_size _ _ _ _ _ _ Hch) as Hsize.
  pose proof (ch_len _ _ _ _ _ _ Hch) as Hlen.
  pose proof (ch_inst _ _ _ _ _ _ Hch) as Hinst.
  assert (Heta : mkMCF (msgBuf inst) (head inst) (tail inst) (msgBufSize inst) (Some f)
                 = inst).
  { rewrite <- Hf. by destruct inst. }
  split.
  - set (w1 := configured p inst (<[head inst := 0]> (cursors w)) w).
    assert (Hch1 : channel w1 p inst buf 0 t).
    { destruct Hch. constructor; simpl; try done.
      - apply lookup_insert_eq.
      - apply lookup_insert_eq.
      - by rewrite lookup_insert_ne. }
    destruct (MCF_receive_Done _ _ _ _ _ _ _ fuel Hch1 Hf ltac:(lia) Ht)
      as (buf' & Hlen' & Hrun).
    { apply Nat2Z.inj_lt. rewrite pending_length by lia.
      pose proof (Z.mod_pos_bound (0 - t) (msgBufSize inst) ltac:(lia)). lia. }
    eexists. split; [|split].
    + rewrite (bind_Done _ _ _ _ _ (MCF_init_TX_Done _ _ _ _ _ _ _ _ Hst Hinst)).
      rewrite Hf, Heta. exact Hrun.
    + done.
    + rewrite pending_length, mod_cases by lia.
      case_decide; subst;
        repeat match goal with |- context [?a <? ?b] => destruct (Z.ltb_spec a b) end; lia.
  - set (w1 := configured p inst (<[tail inst := 0]> (cursors w)) w).
    assert (Hch1 : channel w1 p inst buf h 0).
    { destruct Hch. constructor; simpl; try done.
      - apply lookup_insert_eq.
      - by rewrite lookup_insert_ne.
      - apply lookup_insert_eq. }
    destruct (MCF_receive_Done _ _ _ _ _ _ _ fuel Hch1 Hf Hh ltac:(lia))
      as (buf' & Hlen' & Hrun).
    { apply Nat2Z.inj_lt. rewrite pending_length by lia.
      pose proof (Z.mod_pos_bound (h - 0) (msgBufSize inst) ltac:(lia)). lia. }
    eexists. split; [|split].
    + rewrite (bind_Done _ _ _ _ _ (MCF_init_RX_Done _ _ _ _ _ _ _ _ f Hst Hinst)).
      rewrite Heta. exact Hrun.
    + done.
    + rewrite pending_length, Z.sub_0_r, Z.mod_small by lia. done.
Qed.

End Proofs.

(** * Instances on the concrete store *)

Ltac concrete_channel :=
  constructor; try done; try (vm_compute; congruence); try (simpl; lia).

Lemma MCF_send_publishes_next_slot_witness :
  publishes (MCF_send_i16 1%N 9 (-1)) (example_store 3 (replicate 3 blank) 2 1)
    (example_inst 3) 0 (mkMsg 9 (i16 (-1))).
Proof.
  apply (MCF_send_publishes_next_slot (example_store 3 (replicate 3 blank) 2 1) 1%N
           (example_inst 3) (replicate 3 blank) 2 1 9).
  - concrete_channel.
  - simpl. lia.
Defined.

Lemma MCF_send_writes_only_next_slot_witness :
  writes_only (MCF_send_f32 1%N 7 f32_3_5) (example_store 3 (replicate 3 blank) 2 1)
    1%N (example_inst 3) 1 0.
Proof.
  apply (MCF_send_writes_only_next_slot (example_store 3 (replicate 3 blank) 2 1) 1%N
           (example_inst 3) (replicate 3 blank) 2 1 7).
  - concrete_channel.
  - simpl. lia.
Defined.

Ltac concrete_storage :=
  constructor; try done; try (vm_compute; eauto; congruence); try (simpl; lia).

Lemma MCF_init_resets_owned_cursors_witness :
  exists w', MCF_init_TX 1%N 2%N 3%N 4%N 3 (raw_store 3 7 2) = Done (tt, w') /\
    w' = configured 1%N (mkMCF 4%N 2%N 3%N 3 None) (<[2%N := 0]> (cursors (raw_store 3 7 2)))
           (raw_store 3 7 2) /\
    cursors w' !! 2%N = Some 0 /\ cursors w' !! 3%N = cursors (raw_store 3 7 2) !! 3%N.
Proof.
  apply (MCF_init_resets_owned_cursors (raw_store 3 7 2) 1%N 2%N 3%N 4%N 3
           (replicate 3 blank) (mkMCF 0%N 0%N 0%N 0 None) logger).
  - concrete_storage.
  - reflexivity.
Defined.

Lemma deliver_logger msgs u : deliver logger msgs u = u ++ msgs.
Proof.
  revert u. induction msgs as [|m msgs IH]; intros u.
  - simpl. by rewrite app_nil_r.
  - change (deliver logger (m :: msgs) u) with (deliver logger msgs (u ++ [m])).
    by rewrite IH, <- app_assoc.
Qed.

Lemma MCF_receive_drains_pending_witness :
  exists w', MCF_receive 3 1%N
               (example_store 3 [mkMsg 1 (u16 10); mkMsg 2 (i16 (-1)); mkMsg 3 (u32 5)] 0 1)
             = Done (tt, w') /\
    user w' = [mkMsg 3 (u32 5); mkMsg 1 (u16 10)] /\
    cursors w' !! 3%N = Some 0 /\ cursors w' !! 2%N = Some 0.
Proof.
  pose (buf := [mkMsg 1 (u16 10); mkMsg 2 (i16 (-1)); mkMsg 3 (u32 5)]).
  apply (MCF_receive_drains_pending (example_store 3 buf 0 1) 1%N (example_inst 3)
           buf 0 1 logger).
  - concrete_channel.
  - reflexivity.
  - simpl. lia.
  - simpl. lia.
  - vm_compute. lia.
Defined.

Lemma MCF_receive_terminates_witness :
  exists w', MCF_receive 4 1%N (example_store 3 (replicate 3 blank) 2 65535) = Done (tt, w') /\
    cursors w' !! 3%N = Some 2 /\ cursors w' !! 2%N = Some 2.
Proof.
  apply (MCF_receive_terminates (example_store 3 (replicate 3 blank) 2 65535) 1%N
           (example_inst 3) (replicate 3 blank) 2 65535 logger).
  - concrete_channel.
  - reflexivity.
  - simpl. lia.
  - simpl. lia.
Defined.

Lemma MCF_cursors_stay_in_range_witness :
  establishes_range (MCF_init_TX 1%N 2%N 3%N 4%N 3) (raw_store 3 7 2) 1%N /\
  establishes_range (MCF_send_u32 1%N 5 70000) (tx_only_store 3 (replicate 3 blank) 2 1) 1%N /\
  establishes_range (MCF_receive 4 1%N) (example_store 3 (replicate 3 blank) 2 1) 1%N.
Proof.
  pose proof (MCF_cursors_stay_in_range (raw_store 3 7 2) 1%N 2%N 3%N 4%N 3
                (replicate 3 blank) 7 2
                (tx_only_store 3 (replicate 3 blank) 2 1) 1%N (mkMCF 4%N 2%N 3%N 3 None)
                (replicate 3 blank) 2 1 logger) as Htx.
  pose proof (MCF_cursors_stay_in_range (raw_store 3 7 2) 1%N 2%N 3%N 4%N 3
                (replicate 3 blank) 7 2
                (example_store 3 (replicate 3 blank) 2 1) 1%N (example_inst 3)
                (replicate 3 blank) 2 1 logger) as Hrx.
  destruct Htx as (Hinit & _ & _ & _ & _ & Hu32 & _ & _ & _).
  - concrete_storage.
  - reflexivity.
  - reflexivity.
  - concrete_channel.
  - simpl. lia.
  - simpl. lia.
  - destruct Hrx as (_ & _ & _ & _ & _ & _ & _ & _ & Hrecv).
    + concrete_storage.
    + reflexivity.
    + reflexivity.
    + concrete_channel.
    + simpl. lia.
    + simpl. lia.
    + split; [apply Hinit; lia|]. split; [apply Hu32|].
      apply Hrecv; [reflexivity|simpl; lia].
Defined.

Lemma MCF_delivers_in_fifo_order_witness :
  exists w1, MCF_init_RXTX 1%N 2%N 3%N 4%N 3 (Some logger) (raw_store 3 7 2) = Done (tt, w1) /\
    exists w2,
      exec_calls 4 1%N
        (sends [mkMsg 1 (u16 10); mkMsg 2 (f32 f32_3_5)] ++
         Receive :: sends [mkMsg 3 (i16 (-1)); mkMsg 4 (i32 (-7))] ++ [Receive]) w1
      = Done (tt, w2) /\
      user w2 = [mkMsg 1 (u16 10); mkMsg 2 (f32 f32_3_5);
                 mkMsg 3 (i16 (-1)); mkMsg 4 (i32 (-7))].
Proof.
  destruct (MCF_delivers_in_fifo_order (raw_store 3 7 2) 1%N 2%N 3%N 4%N 3
              (replicate 3 blank) logger 4) as (w1 & Hinit & _ & Hwrap).
  - concrete_storage.
  - simpl. lia.
  - exists w1. split; [exact Hinit|].
    apply (Hwrap [mkMsg 1 (u16 10); mkMsg 2 (f32 f32_3_5)]
                 [mkMsg 3 (i16 (-1)); mkMsg 4 (i32 (-7))]); reflexivity.
Defined.

(** C8, as stated for every capacity, fails at capacity 1: the send
    leaves head equal to tail and the drain invokes the parser zero times. *)
Lemma MCF_single_round_trip_capacity_one :
  ~ single_round_trip (raw_store 1 0 0) 1%N 2%N 3%N 4%N 1 logger.
Proof.
  intros H. destruct (H 2%nat ltac:(simpl; lia)) as (w' & Hrun & Huser & _).
  vm_compute in Hrun. injection Hrun as <-. vm_compute in Huser. discriminate.
Qed.

Lemma MCF_single_round_trip_witness :
  single_round_trip (raw_store 3 7 2) 1%N 2%N 3%N 4%N 3 logger.
Proof.
  apply (MCF_single_round_trip (raw_store 3 7 2) 1%N 2%N 3%N 4%N 3 (replicate 3 blank) logger).
  - concrete_storage.
  - lia.
Defined.

Lemma MCF_capacity_one_never_delivers_witness :
  exists w' buf',
    exec_calls 1 1%N [Send (mkMsg 1 (u16 10)); Receive; Send (mkMsg 2 (i32 5)); Receive]
      (example_store 1 [blank] 0 0) = Done (tt, w') /\
    user w' = [] /\ channel w' 1%N (example_inst 1) buf' 0 0.
Proof.
  apply (MCF_capacity_one_never_delivers (example_store 1 [blank] 0 0) 1%N
           (example_inst 1) [blank] 0 0 logger).
  - concrete_channel.
  - reflexivity.
  - reflexivity.
  - unfold is_u16, UINT16_MAX. lia.
  - reflexivity.
  - reflexivity.
Defined.

(** C9, as stated, fails for a burst of exactly [capacity] messages: with
    capacity 2 and two sends the first message is still in slot 1. *)
Lemma MCF_overflow_keeps_earliest :
  ~ overflow_overwrites_earliest (raw_store 2 0 0) 1%N 2%N 3%N 4%N 2 logger
      [mkMsg 1 (u16 10); mkMsg 2 (u16 20)].
Proof.
  intros H. destruct (H ltac:(simpl; lia)) as (w' & Hrun & m1 & Hm1 & Hslot).
  vm_compute in Hrun. injection Hrun as <-.
  injection Hm1 as <-. apply Hslot. reflexivity.
Qed.

Lemma MCF_overflow_loses_messages_witness :
  exists w1 buf,
    burst 1%N 2%N 3%N 4%N 2 logger [mkMsg 1 (u16 10); mkMsg 2 (u16 20)] (raw_store 2 0 0)
    = Done (tt, w1) /\
    channel w1 1%N (example_inst 2) buf 0 0 /\
    (forall i, (i < 2)%nat -> 2 - 2 <= Z.of_nat i ->
       buf !! Z.to_nat ((Z.of_nat i + 1) mod 2)
       = [mkMsg 1 (u16 10); mkMsg 2 (u16 20)] !! i) /\
    exists w2,
      MCF_receive 3 1%N w1 = Done (tt, w2) /\
      user w2 = [] /\
      cursors w2 !! 3%N = cursors w2 !! 2%N.
Proof.
  apply (MCF_overflow_loses_messages (raw_store 2 0 0) 1%N 2%N 3%N 4%N 2
           (replicate 2 blank) logger [mkMsg 1 (u16 10); mkMsg 2 (u16 20)] 3).
  - concrete_storage.
  - simpl. lia.
Defined.

(** ** Instances of the further properties *)


Lemma MCF_receive_without_parser_witness :
  MCF_receive 1 1%N (tx_only_store 3 (replicate 3 blank) 2 1) = Fault.
Proof.
  apply (MCF_receive_without_parser (tx_only_store 3 (replicate 3 blank) 2 1) 1%N
           (mkMCF 4%N 2%N 3%N 3 None) (replicate 3 blank) 2 1).
  - concrete_channel.
  - reflexivity.
  - lia.
Defined.

Lemma MCF_send_repairs_head_witness :
  exists w' h',
    MCF_send 1%N (mkMsg 5 (i16 (-3))) (example_store 3 (replicate 3 blank) 200 1)
    = Done (tt, w') /\
    cursors w' !! 2%N = Some h' /\ 0 <= h' < 3 /\
    slot_of w' 4%N h' = Some (mkMsg 5 (i16 (-3))) /\
    (3 - 1 <= 200 -> h' = 0).
Proof.
  apply (MCF_send_repairs_head (example_store 3 (replicate 3 blank) 200 1) 1%N
           (example_inst 3) (replicate 3 blank) 200 1 (mkMsg 5 (i16 (-3)))).
  - concrete_channel.
  - unfold is_u16, UINT16_MAX. lia.
Defined.

Lemma MCF_receive_repairs_tail_witness :
  exists w',
    MCF_receive 4 1%N
      (example_store 3 [mkMsg 1 (u16 10); mkMsg 2 (i16 (-1)); mkMsg 3 (u32 5)] 1 9)
    = Done (tt, w') /\
    user w' = [mkMsg 1 (u16 10); mkMsg 2 (i16 (-1))] /\
    cursors w' !! 3%N = Some 1 /\ cursors w' !! 2%N = Some 1.
Proof.
  pose (buf := [mkMsg 1 (u16 10); mkMsg 2 (i16 (-1)); mkMsg 3 (u32 5)]).
  apply (MCF_receive_repairs_tail (example_store 3 buf 1 9) 1%N (example_inst 3)
           buf 1 9 logger 4).
  - concrete_channel.
  - reflexivity.
  - simpl. lia.
  - simpl. lia.
  - unfold is_u16, UINT16_MAX. lia.
  - simpl. lia.
Defined.


Lemma MCF_receive_writes_only_tail_witness :
  exists w' buf',
    MCF_receive 3 1%N
      (example_store 3 [mkMsg 1 (u16 10); mkMsg 2 (i16 (-1)); mkMsg 3 (u32 5)] 0 1)
    = Done (tt, w') /\
    instances w' = {[ 1%N := example_inst 3 ]} /\
    (forall q, q <> 3%N -> cursors w' !! q = ({[ 2%N := 0; 3%N := 1 ]} : gmap N Z) !! q) /\
    (forall b, b <> 4%N ->
       buffers w' !! b
       = ({[ 4%N := [mkMsg 1 (u16 10); mkMsg 2 (i16 (-1)); mkMsg 3 (u32 5)] ]}
          : gmap N (list MCF_Message_t)) !! b) /\
    buffers w' !! 4%N = Some buf' /\ length buf' = 3%nat /\
    (forall j, (forall k, (k < 2)%nat -> j <> Z.to_nat (ring_index 3 1 k)) ->
       buf' !! j = [mkMsg 1 (u16 10); mkMsg 2 (i16 (-1)); mkMsg 3 (u32 5)] !! j) /\
    ((forall m u, fst (logger m u) = m) ->
     buf' = [mkMsg 1 (u16 10); mkMsg 2 (i16 (-1)); mkMsg 3 (u32 5)]).
Proof.
  pose (buf := [mkMsg 1 (u16 10); mkMsg 2 (i16 (-1)); mkMsg 3 (u32 5)]).
  apply (MCF_receive_writes_only_tail (example_store 3 buf 0 1) 1%N (example_inst 3)
           buf 0 1 logger 3).
  - concrete_channel.
  - reflexivity.
  - simpl. lia.
  - simpl. lia.
  - vm_compute. lia.
Defined.

Lemma MCF_receive_twice_witness :
  exists w',
    MCF_receive 3 1%N (example_store 3 (replicate 3 blank) 0 1) = Done (tt, w') /\
    MCF_receive 3 1%N w' = Done (tt, w').
Proof.
  apply (MCF_receive_twice (example_store 3 (replicate 3 blank) 0 1) 1%N (example_inst 3)
           (replicate 3 blank) 0 1 logger 3).
  - concrete_channel.
  - reflexivity.
  - simpl. lia.
  - simpl. lia.
  - vm_compute. lia.
Defined.

Lemma MCF_send_on_full_channel_empties_it_witness :
  exists w',
    MCF_send 1%N (mkMsg 4 (u16 40))
      (example_store 3 [mkMsg 1 (u16 10); mkMsg 2 (u16 20); mkMsg 3 (u16 30)] 0 1)
    = Done (tt, w') /\
    cursors w' !! 2%N = Some 1 /\ cursors w' !! 3%N = Some 1 /\
    forall fuel, MCF_receive (S fuel) 1%N w' = Done (tt, w').
Proof.
  pose (buf := [mkMsg 1 (u16 10); mkMsg 2 (u16 20); mkMsg 3 (u16 30)]).
  apply (MCF_send_on_full_channel_empties_it (example_store 3 buf 0 1) 1%N
           (example_inst 3) buf 0 1 (mkMsg 4 (u16 40))).
  - concrete_channel.
  - simpl. lia.
  - simpl. lia.
  - reflexivity.
Defined.

Lemma MCF_pair_delivers_in_fifo_order_witness :
  exists w',
    session_tx_first 4 1%N 5%N 2%N 3%N 4%N 3 logger
      [mkMsg 1 (u16 10)] [Send (mkMsg 2 (f32 f32_3_5)); Receive; Send (mkMsg 3 (i32 (-7)));
                          Receive]
      (raw_pair_store 3 7 2) = Done (tt, w') /\
    user w' = [mkMsg 1 (u16 10); mkMsg 2 (f32 f32_3_5); mkMsg 3 (i32 (-7))].
Proof.
  apply (MCF_pair_delivers_in_fifo_order (raw_pair_store 3 7 2) 1%N 5%N 2%N 3%N 4%N 3
           (replicate 3 blank) logger 4 [mkMsg 1 (u16 10)]
           [Send (mkMsg 2 (f32 f32_3_5)); Receive; Send (mkMsg 3 (i32 (-7))); Receive]).
  - concrete_storage.
  - concrete_storage.
  - done.
  - simpl. lia.
  - reflexivity.
Defined.

Lemma MCF_init_RXTX_is_TX_and_RX_witness :
  (let* _ := MCF_init_TX 1%N 2%N 3%N 4%N 3 in MCF_init_RX 1%N 2%N 3%N 4%N 3 (Some logger))
    (raw_store 3 7 2)
  = MCF_init_RXTX 1%N 2%N 3%N 4%N 3 (Some logger) (raw_store 3 7 2).
Proof.
  apply (MCF_init_RXTX_is_TX_and_RX (raw_store 3 7 2) 1%N 2%N 3%N 4%N 3
           (replicate 3 blank) logger).
  concrete_storage.
Defined.

Lemma MCF_init_on_live_channel_replays_slots_witness :
  exists w',
    (let* _ := MCF_init_TX 1%N 2%N 3%N 4%N 3 in MCF_receive 4 1%N)
      (example_store 3 [mkMsg 1 (u16 10); mkMsg 2 (u16 20); mkMsg 3 (u16 30)] 2 2)
    = Done (tt, w') /\
    user w' = [mkMsg 1 (u16 10)] /\
    Z.of_nat (length [mkMsg 1 (u16 10)]) = 3 - 2.
Proof.
  pose (buf := [mkMsg 1 (u16 10); mkMsg 2 (u16 20); mkMsg 3 (u16 30)]).
  apply (MCF_init_on_live_channel_replays_slots (example_store 3 buf 2 2) 1%N
           (example_inst 3) buf 2 2 logger 4).
  - concrete_channel.
  - reflexivity.
  - simpl. lia.
  - simpl. lia.
  - simpl. lia.
Defined.

